(** * cloudflare-ddns: a shallow embedding of [cloudflare-ddns.js]

    The script keeps the A records of a list of domains pointed at the
    public address of the host.  This development embeds

    - the configuration loader and validator ([loadConfig],
      [validateConfig]) as pure functions over the JavaScript values a
      parsed [config.json] can hold;
    - the asynchronous reconciliation code ([retryCloudflareAPI],
      [getPublicIp], [getARecord], [sendTelegramMessage], [updateARecord],
      [checkAndUpdate]) as programs of a small effect monad, with a
      run-to-completion interpreter and an interleaving machine in which
      invocations are suspended at their [await] points;
    - the timers of the life cycle ([scheduleNextCheck],
      [gracefulShutdown]) as callbacks over an explicit timer queue. *)

From Stdlib Require Import ZArith List String Ascii Bool Lia PeanoNat.
Import ListNotations.

Local Open Scope string_scope.
Local Open Scope list_scope.
Local Open Scope Z_scope.

(* ===================================================================== *)
(** * JavaScript values *)
(* ===================================================================== *)

(** The values the script reads out of parsed JSON documents.  A property
    that is absent reads as [VUndefined].  Numbers are the integers a JSON
    document can spell; strings are sequences of code units below 256.
    [VObj] stands for any object or array: the script tests such a value
    for truthiness, compares it by identity, or converts it to a string
    in a template literal.  The conversion throws a [TypeError] for an
    object without a callable [toString] or [valueOf] (the document
    [{"toString": 1}] parses to one) and for an array that holds one;
    [stringifies] tells whether it returns. *)
Inductive jsval : Type :=
| VUndefined
| VNull
| VBool (b : bool)
| VNum (n : Z)
| VStr (s : string)
| VObj (stringifies : bool).

(** ToBoolean. *)
Definition truthy (v : jsval) : bool :=
  match v with
  | VUndefined | VNull => false
  | VBool b => b
  | VNum n => negb (n =? 0)
  | VStr s => negb (String.eqb s "")
  | VObj _ => true
  end.

(** Whether [`${v}`] returns: every primitive has a string form. *)
Definition printable (v : jsval) : bool :=
  match v with
  | VObj stringifies => stringifies
  | _ => true
  end.

(** [a || b] *)
Definition js_or (a b : jsval) : jsval := if truthy a then a else b.

(** [a === b] for two values that come out of different parsed documents:
    two objects are then never the same object. *)
Definition strict_eq (a b : jsval) : bool :=
  match a, b with
  | VUndefined, VUndefined => true
  | VNull, VNull => true
  | VBool x, VBool y => Bool.eqb x y
  | VNum x, VNum y => x =? y
  | VStr x, VStr y => String.eqb x y
  | _, _ => false
  end.

(** White space as [String.prototype.trim] sees it, among the code units
    below 256: TAB, LF, VT, FF, CR, SP and NBSP. *)
Definition is_white (c : ascii) : bool :=
  let n := nat_of_ascii c in
  ((9 <=? n) && (n <=? 13) || (n =? 32) || (n =? 160))%nat.

Fixpoint all_white (s : string) : bool :=
  match s with
  | EmptyString => true
  | String c r => is_white c && all_white r
  end.

(** The numbers that are a positive whole number of seconds. *)
Definition positive_integer (v : jsval) : bool :=
  match v with
  | VNum n => 0 <? n
  | _ => false
  end.

(* ===================================================================== *)
(** * Configuration *)
(* ===================================================================== *)

(** One object of [config.domains], and one element of [DOMAINS]: the five
    properties the script reads. *)
Record DomainConfig : Type := mkDomain {
  name : jsval;
  zoneId : jsval;
  apiToken : jsval;
  ttl : jsval;
  proxied : jsval
}.

(** An element of the [config.domains] array: [null], or a value whose
    properties can be read (a primitive reads as all-undefined). *)
Inductive entry : Type :=
| EntryNull
| Entry (d : DomainConfig).

Record TelegramConfig : Type := mkTelegram {
  botToken : jsval;
  chatId : jsval
}.

(** [config.defaults || {}], read at the three properties used. *)
Record Defaults : Type := mkDefaults {
  defaults_apiToken : jsval;
  defaults_ttl : jsval;
  defaults_proxied : jsval
}.

(** The parsed document.  [telegram = None] is a falsy [config.telegram];
    [domains = None] is a [config.domains] that is falsy or not an array. *)
Record Config : Type := mkConfig {
  telegram : option TelegramConfig;
  defaults : Defaults;
  domains : option (list entry)
}.

(** What [loadConfig] finds on disk. *)
Inductive ConfigFile : Type :=
| FileMissing                (* fs.existsSync is false *)
| FileUnreadable             (* readFileSync or JSON.parse throws *)
| FileNull                   (* the document is the literal null *)
| FileParsed (c : Config).

(** The module-level variables set by [loadConfig]. *)
Record Globals : Type := mkGlobals {
  TELEGRAM_BOT_TOKEN : jsval;
  TELEGRAM_CHAT_ID : jsval;
  DOMAINS : list DomainConfig
}.

(** How the start-up code ends: [process.exit], an uncaught [TypeError]
    (which makes Node exit with status 1), or control reaching the
    start-up phase. *)
Inductive Boot (A : Type) : Type :=
| Exited (code : Z)
| Uncaught
| Proceed (a : A).
Arguments Exited {A} code.
Arguments Uncaught {A}.
Arguments Proceed {A} a.

Definition exit_status {A} (b : Boot A) : option Z :=
  match b with
  | Exited code => Some code
  | Uncaught => Some 1
  | Proceed _ => None
  end.

(** The process is gone with a non-zero status. *)
Definition fatal {A} (b : Boot A) : Prop :=
  exists code, exit_status b = Some code /\ code <> 0.

(** [d => d.name && d.zoneId], the filter predicate, by its truth value. *)
Definition has_name_and_zone (d : DomainConfig) : bool :=
  truthy (name d) && truthy (zoneId d).

(** [Array.prototype.filter] with that predicate; [None] when the
    predicate throws, which it does on reading a property of [null]. *)
Fixpoint filter_entries (l : list entry) : option (list DomainConfig) :=
  match l with
  | [] => Some []
  | EntryNull :: _ => None
  | Entry d :: r =>
      match filter_entries r with
      | None => None
      | Some r' => Some (if has_name_and_zone d then d :: r' else r')
      end
  end.

Definition defaultTtl (df : Defaults) : jsval := js_or (defaults_ttl df) (VNum 60).
Definition defaultProxied (df : Defaults) : jsval :=
  js_or (defaults_proxied df) (VBool false).

(** The [map] callback of [loadConfig]. *)
Definition load_domain (df : Defaults) (d : DomainConfig) : DomainConfig :=
  {| name := name d;
     zoneId := zoneId d;
     apiToken := js_or (apiToken d) (defaults_apiToken df);
     ttl := match ttl d with VUndefined => defaultTtl df | v => v end;
     proxied := match proxied d with VUndefined => defaultProxied df | v => v end |}.

(** [loadConfig]: every failure inside the [try] ends in
    [process.exit(1)]; [DOMAINS] keeps its initial [[]] when
    [config.domains] is not an array. *)
Definition loadConfig (f : ConfigFile) : Boot Globals :=
  match f with
  | FileMissing => Exited 1
  | FileUnreadable => Exited 1
  | FileNull => Exited 1
  | FileParsed c =>
      let token := match telegram c with
                   | Some t => botToken t | None => VUndefined end in
      let chat := match telegram c with
                  | Some t => chatId t | None => VUndefined end in
      match domains c with
      | None => Proceed (mkGlobals token chat [])
      | Some l =>
          match filter_entries l with
          | None => Exited 1
          | Some kept =>
              Proceed (mkGlobals token chat (map (load_domain (defaults c)) kept))
          end
      end
  end.

Inductive ConfigError : Type :=
| NoDomains
| MissingName (index : nat)
| MissingZoneId (index : nat)
| MissingApiToken (index : nat).

(** [v.trim() === ''] for a truthy [v]; [None] when [v] has no [trim]. *)
Definition trims_to_empty (v : jsval) : option bool :=
  match v with
  | VStr s => Some (all_white s)
  | _ => None
  end.

(** The three checks made on one element of [DOMAINS]; [None] when the
    callback throws: [apiToken.trim] is not a function, or the line about
    a missing zone id or credential cannot be built because its label,
    [`${domain.name || index + 1}`], has no string form. *)
Definition check_domain (index : nat) (d : DomainConfig) : option (list ConfigError) :=
  let label := printable (js_or (name d) (VNum (Z.of_nat index + 1))) in
  let e1 := if truthy (name d) then [] else [MissingName index] in
  let e2 := if truthy (zoneId d) then Some []
            else if label then Some [MissingZoneId index] else None in
  let e3 := if truthy (apiToken d) then
              match trims_to_empty (apiToken d) with
              | None => None
              | Some blank =>
                  if blank
                  then if label then Some [MissingApiToken index] else None
                  else Some []
              end
            else if label then Some [MissingApiToken index] else None in
  match e2, e3 with
  | Some l2, Some l3 => Some (e1 ++ l2 ++ l3)
  | _, _ => None
  end.

(** The first [forEach] of [validateConfig]. *)
Fixpoint check_domains (index : nat) (ds : list DomainConfig) : option (list ConfigError) :=
  match ds with
  | [] => Some []
  | d :: r =>
      match check_domain index d with
      | None => None
      | Some e =>
          match check_domains (S index) r with
          | None => None
          | Some er => Some (e ++ er)
          end
      end
  end.

(** [v.substring(0, n)] is callable exactly on strings. *)
Definition has_substring (v : jsval) : bool :=
  match v with VStr _ => true | _ => false end.

(** The summary line of one domain: it takes [substring] of the token when
    that is truthy, and of the zone id always, and it converts the name,
    the ttl and the proxied flag to strings. *)
Definition summary_line_ok (d : DomainConfig) : bool :=
  (if truthy (apiToken d) then has_substring (apiToken d) else true)
  && printable (name d)
  && has_substring (zoneId d)
  && printable (ttl d)
  && printable (proxied d).

Inductive StartupNote : Type :=
| TelegramNotConfigured
| ConfigValid (count : nat).

(** [validateConfig]: returns the lines it logged when it lets the script
    go on. *)
Definition validateConfig (g : Globals) : Boot (list StartupNote) :=
  let errors0 := match DOMAINS g with [] => [NoDomains] | _ => [] end in
  match check_domains 0 (DOMAINS g) with
  | None => Uncaught
  | Some errs =>
      match errors0 ++ errs with
      | _ :: _ => Exited 1
      | [] =>
          let warn :=
            if negb (truthy (TELEGRAM_BOT_TOKEN g)) || negb (truthy (TELEGRAM_CHAT_ID g))
            then [TelegramNotConfigured] else [] in
          if forallb summary_line_ok (DOMAINS g)
          then Proceed (warn ++ [ConfigValid (List.length (DOMAINS g))])
          else Uncaught
      end
  end.

(** The top level up to the call of [startupWithRetry]: [loadConfig()],
    then [validateConfig()]. *)
Definition boot (f : ConfigFile) : Boot (Globals * list StartupNote) :=
  match loadConfig f with
  | Exited c => Exited c
  | Uncaught => Uncaught
  | Proceed g =>
      match validateConfig g with
      | Exited c => Exited c
      | Uncaught => Uncaught
      | Proceed notes => Proceed (g, notes)
      end
  end.

(* ===================================================================== *)
(** * The network, as the script sees it *)
(* ===================================================================== *)

(** The notification text of [updateARecord], by its variable parts. *)
Record Notice : Type := mkNotice {
  notice_domain : jsval;
  notice_old : jsval;
  notice_new : jsval;
  notice_ttl : jsval;
  notice_proxied : bool          (* proxied ? 'Yes' : 'No' *)
}.

(** The four HTTP requests the script issues. *)
Inductive request : Type :=
| ReqPublicIp
    (* GET https://api.ipify.org?format=json *)
| ReqListARecords (zone domain token : jsval)
    (* GET .../zones/${zoneId}/dns_records?type=A&name=${name} *)
| ReqPatchRecord (zone record token : jsval) (domain content seconds flag : jsval)
    (* PATCH .../zones/${zoneId}/dns_records/${recordId} *)
| ReqSendMessage (token chat : jsval) (text : Notice) (timeoutMs : Z).
    (* POST https://api.telegram.org/bot${TOKEN}/sendMessage *)

(** An element of [data.result]. *)
Inductive DnsEntry : Type :=
| DnsNull
| DnsRecord (content id : jsval).

(** [data.result]: undefined or null, an array, or a value whose [length]
    is undefined (a number, a boolean). *)
Inductive ResultField : Type :=
| ResultMissing
| ResultArray (l : list DnsEntry)
| ResultScalar.

(** A parsed body that is not [null], at the properties the script reads. *)
Record Data : Type := mkData {
  data_ip : jsval;
  data_success : jsval;
  data_result : ResultField;
  data_ok : jsval;
  data_description : jsval;
  data_errors : jsval
}.

(** What [await response.json()] gives. *)
Inductive Payload : Type :=
| NotJson
| JsonNull
| JsonData (d : Data).

Record Response : Type := mkResponse {
  ok : bool;
  status : Z;
  payload : Payload
}.

(** What [await fetch(...)] gives; an aborted request is rejected. *)
Inductive FetchResult : Type :=
| Rejected (reason : string)
| Responded (r : Response).

(** The values thrown inside the script. *)
Inductive exn : Type :=
| NetworkError (reason : string)
| HttpError (code : Z)
| JsonError
| TypeError
| CloudflareError (errors : jsval)
| TelegramHttpError (code : Z)
| TelegramError (description : jsval).

Inductive level : Type := Info | Warn | Error.

(** The [context] strings given to [retryCloudflareAPI]. *)
Inductive context : Type :=
| CtxGet (domain : jsval)
| CtxUpdate (domain : jsval).

(** The log lines, without their time stamps. *)
Inductive message : Type :=
| MRetryExhausted (ctx : context) (retries : nat) (e : exn)
| MRetrying (ctx : context) (attempt retries : nat) (e : exn) (delay : Z)
| MPublicIpError (e : exn)
| MNoARecord (domain : jsval)
| MGetARecordError (domain : jsval) (e : exn)
| MTelegramSkipped
| MTelegramSent (text : Notice)
| MTelegramRetrying (attempt retries : nat) (e : exn) (delay : Z)
| MTelegramFailed (retries : nat) (e : exn)
| MUpdated (domain content seconds flag : jsval)
| MUpdateError (domain : jsval) (e : exn)
| MCycleBusy
| MNoPublicIp
| MMatches (domain ip : jsval)
| MDiffers (domain old new : jsval).

(* ===================================================================== *)
(** * Asynchronous programs *)
(* ===================================================================== *)

(** A JavaScript async function body, as the tree of its effects.  [Fetch]
    and [Sleep] are the [await] points at which the event loop may run
    other code; the other nodes run synchronously.  [Fetch] stands for
    [await fetch(...)] together with the reading of the body. *)
Inductive prog (A : Type) : Type :=
| Ret (a : A)
| Throw (e : exn)
| Fetch (r : request) (k : FetchResult -> prog A)
| Sleep (ms : Z) (k : prog A)
| Log (l : level) (m : message) (k : prog A)
| GetRunning (k : bool -> prog A)
| SetRunning (b : bool) (k : prog A)
| RandomBelow (n : Z) (k : Z -> prog A).
Arguments Ret {A} a.
Arguments Throw {A} e.
Arguments Fetch {A} r k.
Arguments Sleep {A} ms k.
Arguments Log {A} l m k.
Arguments GetRunning {A} k.
Arguments SetRunning {A} b k.
Arguments RandomBelow {A} n k.

Fixpoint bind {A B} (p : prog A) (f : A -> prog B) : prog B :=
  match p with
  | Ret a => f a
  | Throw e => Throw e
  | Fetch r k => Fetch r (fun x => bind (k x) f)
  | Sleep ms k => Sleep ms (bind k f)
  | Log l m k => Log l m (bind k f)
  | GetRunning k => GetRunning (fun x => bind (k x) f)
  | SetRunning b k => SetRunning b (bind k f)
  | RandomBelow n k => RandomBelow n (fun x => bind (k x) f)
  end.

(** [try { p } catch (e) { h e }] *)
Fixpoint try_catch {A} (p : prog A) (h : exn -> prog A) : prog A :=
  match p with
  | Ret a => Ret a
  | Throw e => h e
  | Fetch r k => Fetch r (fun x => try_catch (k x) h)
  | Sleep ms k => Sleep ms (try_catch k h)
  | Log l m k => Log l m (try_catch k h)
  | GetRunning k => GetRunning (fun x => try_catch (k x) h)
  | SetRunning b k => SetRunning b (try_catch k h)
  | RandomBelow n k => RandomBelow n (fun x => try_catch (k x) h)
  end.

(** [try { p } finally { fin }]: [fin] runs on return and on throw, and
    the completion of [p] is kept. *)
Fixpoint try_finally {A} (p : prog A) (fin : prog unit) : prog A :=
  match p with
  | Ret a => bind fin (fun _ => Ret a)
  | Throw e => bind fin (fun _ => Throw e)
  | Fetch r k => Fetch r (fun x => try_finally (k x) fin)
  | Sleep ms k => Sleep ms (try_finally k fin)
  | Log l m k => Log l m (try_finally k fin)
  | GetRunning k => GetRunning (fun x => try_finally (k x) fin)
  | SetRunning b k => SetRunning b (try_finally k fin)
  | RandomBelow n k => RandomBelow n (fun x => try_finally (k x) fin)
  end.

Declare Scope prog_scope.
Delimit Scope prog_scope with prog.
Notation "x <- p ;; q" := (bind p (fun x => q))
  (at level 61, p at next level, right associativity) : prog_scope.
Notation "p ;; q" := (bind p (fun _ => q))
  (at level 61, right associativity) : prog_scope.

Definition log (l : level) (m : message) : prog unit := Log l m (Ret tt).
Definition sleep (ms : Z) : prog unit := Sleep ms (Ret tt).
Definition fetch (r : request) : prog FetchResult := Fetch r (fun x => Ret x).

Local Open Scope prog_scope.

(* ===================================================================== *)
(** * The script's asynchronous functions *)
(* ===================================================================== *)

(** The functions below run on the elements of [DOMAINS], which
    [validateConfig] has let through: its summary line has converted
    their name, ttl and proxied flag to strings and has called
    [substring] on their zone id and [trim] on their credential.  The
    templates that interpolate these five properties therefore return,
    and are not modelled as steps that can throw.  The values that come
    from the network and the bot token are not checked by anything; where
    a template interpolates one of them, the conversion is a step that
    throws a [TypeError] when the value is not [printable]. *)

Section RetryCloudflareAPI.
Context {A : Type}.
Variable fn : prog A.
Variable ctx : context.
Variable retries : nat.
Variable initialDelayMs : Z.

(** [Math.min(initialDelayMs * Math.pow(2, attempt - 1), 10000)] *)
Definition backoff_delay (attempt : nat) : Z :=
  Z.min (initialDelayMs * 2 ^ (Z.of_nat attempt - 1)) 10000.

(** The [for] loop of [retryCloudflareAPI] from [attempt] on, [left]
    being the number of iterations until [attempt <= retries] fails.
    Falling off the loop returns [undefined], here [None]. *)
Fixpoint retry_loop (left attempt : nat) : prog (option A) :=
  match left with
  | O => Ret None
  | S left' =>
      try_catch (v <- fn ;; Ret (Some v))
        (fun error =>
           let isLast := Nat.eqb attempt retries in
           let delay := backoff_delay attempt in
           if isLast
           then Log Error (MRetryExhausted ctx retries error) (Throw error)
           else Log Warn (MRetrying ctx attempt retries error delay)
                  (Sleep delay (retry_loop left' (S attempt))))
  end.

Definition retryCloudflareAPI : prog (option A) := retry_loop retries 1.
End RetryCloudflareAPI.

(** The defaults of the options argument, which no caller overrides. *)
Definition default_retries : nat := 3.
Definition default_initialDelayMs : Z := 1000.

(** [getPublicIp]: the address the echo service reports, [null] on any
    failure. *)
Definition getPublicIp : prog jsval :=
  try_catch
    (Fetch ReqPublicIp (fun res =>
       match res with
       | Rejected why => Throw (NetworkError why)
       | Responded r =>
           if negb (ok r) then Throw (HttpError (status r))
           else match payload r with
                | NotJson => Throw JsonError
                | JsonNull => Throw TypeError
                | JsonData d => Ret (data_ip d)
                end
       end))
    (fun error => Log Error (MPublicIpError error) (Ret VNull)).

(** The object [getARecord] returns for a record it found. *)
Record ARecord : Type := mkARecord {
  ip : jsval;
  recordId : jsval
}.

(** The arrow function of [getARecord] after its [await fetch]: what one
    attempt makes of the provider's answer; [None] is [null]. *)
Definition getARecord_reply (domain : jsval) (res : FetchResult) : prog (option ARecord) :=
  match res with
  | Rejected why => Throw (NetworkError why)
  | Responded r =>
      if negb (ok r) then Throw (HttpError (status r))
      else match payload r with
           | NotJson => Throw JsonError
           | JsonNull => Throw TypeError
           | JsonData d =>
               if truthy (data_success d) then
                 match data_result d with
                 | ResultMissing => Throw TypeError
                 | ResultArray (DnsNull :: _) => Throw TypeError
                 | ResultArray (DnsRecord content id :: _) =>
                     Ret (Some (mkARecord content id))
                 | ResultArray [] => Log Error (MNoARecord domain) (Ret None)
                 | ResultScalar => Log Error (MNoARecord domain) (Ret None)
                 end
               else Log Error (MNoARecord domain) (Ret None)
           end
  end.

Definition getARecord_attempt (domainConfig : DomainConfig) : prog (option ARecord) :=
  Fetch (ReqListARecords (zoneId domainConfig) (name domainConfig) (apiToken domainConfig))
        (getARecord_reply (name domainConfig)).

(** [getARecord]: the record, or [null] (also when the retries are used
    up). *)
Definition getARecord (domainConfig : DomainConfig) : prog (option ARecord) :=
  try_catch
    (r <- retryCloudflareAPI (getARecord_attempt domainConfig)
            (CtxGet (name domainConfig)) default_retries default_initialDelayMs ;;
     Ret (match r with Some found => found | None => None end))
    (fun error =>
       Log Error (MGetARecordError (name domainConfig) error) (Ret None)).

Section SendTelegramMessage.
Variable g : Globals.
Variable text : Notice.
Variable retries : nat.
Variable initialDelayMs : Z.
Variable timeoutMs : Z.

(** What one attempt makes of the answer.  [new Error(description)]
    converts a truthy description to a string, and throws a [TypeError]
    itself when that has no string form. *)
Definition telegram_reply (res : FetchResult) : prog bool :=
  match res with
  | Rejected why => Throw (NetworkError why)
  | Responded r =>
      if negb (ok r) then Throw (TelegramHttpError (status r))
      else match payload r with
           | NotJson => Throw JsonError
           | JsonNull => Throw TypeError
           | JsonData d =>
               if negb (truthy (data_ok d))
               then Throw (if printable (data_description d)
                           then TelegramError (data_description d)
                           else TypeError)
               else Log Info (MTelegramSent text) (Ret true)
           end
  end.

(** The [for] loop of [sendTelegramMessage]; the jitter is drawn on
    every failed attempt, the last one included. *)
Fixpoint telegram_loop (left attempt : nat) : prog bool :=
  match left with
  | O => Ret false
  | S left' =>
      try_catch
        (Fetch (ReqSendMessage (TELEGRAM_BOT_TOKEN g) (TELEGRAM_CHAT_ID g) text timeoutMs)
               telegram_reply)
        (fun error =>
           let isLast := Nat.eqb attempt retries in
           RandomBelow 300 (fun jitter =>
             let delay :=
               Z.min (initialDelayMs * 2 ^ (Z.of_nat attempt - 1)) 15000 + jitter in
             if isLast
             then Log Error (MTelegramFailed retries error) (Ret false)
             else Log Warn (MTelegramRetrying attempt retries error delay)
                    (Sleep delay (telegram_loop left' (S attempt)))))
  end.

(** [sendTelegramMessage]: the url is built from the token once, before
    the loop and outside its [try]; nothing has checked that the token is
    a string. *)
Definition sendTelegramMessage : prog bool :=
  if negb (truthy (TELEGRAM_BOT_TOKEN g)) || negb (truthy (TELEGRAM_CHAT_ID g))
  then Log Warn MTelegramSkipped (Ret false)
  else if printable (TELEGRAM_BOT_TOKEN g)
       then telegram_loop retries 1
       else Throw TypeError.
End SendTelegramMessage.

(** [sendTelegramMessage(message)] with the defaults of its options. *)
Definition notify (g : Globals) (text : Notice) : prog bool :=
  sendTelegramMessage g text 5 500 10000.

Definition updateARecord_reply (res : FetchResult) : prog bool :=
  match res with
  | Rejected why => Throw (NetworkError why)
  | Responded r =>
      if negb (ok r) then Throw (HttpError (status r))
      else match payload r with
           | NotJson => Throw JsonError
           | JsonNull => Throw TypeError
           | JsonData d =>
               if truthy (data_success d) then Ret true
               else Throw (CloudflareError (data_errors d))
           end
  end.

(** The arrow function of [updateARecord]: the url is a template that
    holds the record id, which the provider chose; when the id has no
    string form the attempt throws before [fetch] is called. *)
Definition updateARecord_attempt (d : DomainConfig) (record newIp : jsval) : prog bool :=
  if printable record
  then Fetch (ReqPatchRecord (zoneId d) record (apiToken d) (name d) newIp
                (ttl d) (proxied d))
             updateARecord_reply
  else Throw TypeError.

(** [updateARecord]: the line that reports the update converts the new
    address to a string, the notification text the old one; both stand
    inside the [try]. *)
Definition updateARecord (g : Globals) (d : DomainConfig) (record newIp oldIp : jsval)
  : prog unit :=
  try_catch
    (success <- retryCloudflareAPI (updateARecord_attempt d record newIp)
                  (CtxUpdate (name d)) default_retries default_initialDelayMs ;;
     match success with
     | Some true =>
         if printable newIp then
           Log Info (MUpdated (name d) newIp (ttl d) (proxied d))
             (if printable oldIp then
                _ <- notify g (mkNotice (name d) oldIp newIp (ttl d)
                                 (truthy (proxied d))) ;;
                Ret tt
              else Throw TypeError)
         else Throw TypeError
     | _ => Ret tt
     end)
    (fun error => Log Error (MUpdateError (name d) error) (Ret tt)).

(** The body of the [for ... of DOMAINS] loop.  The line that reports
    a difference converts the record's value and the public address to
    strings, outside any [catch]: when one of them has no string form the
    iteration throws.  (In the other branch the address is strictly equal
    to a value of another document, hence a primitive.) *)
Definition process_domain (g : Globals) (publicIp : jsval) (domainConfig : DomainConfig)
  : prog unit :=
  record <- getARecord domainConfig ;;
  match record with
  | None => Ret tt
  | Some rec =>
      if strict_eq (ip rec) publicIp
      then Log Info (MMatches (name domainConfig) publicIp) (Ret tt)
      else if printable (ip rec) && printable publicIp
           then Log Info (MDiffers (name domainConfig) (ip rec) publicIp)
                  (updateARecord g domainConfig (recordId rec) publicIp (ip rec))
           else Throw TypeError
  end.

Fixpoint for_each_domain (g : Globals) (publicIp : jsval) (ds : list DomainConfig)
  : prog unit :=
  match ds with
  | [] => Ret tt
  | d :: rest => process_domain g publicIp d ;; for_each_domain g publicIp rest
  end.

(** The [try] block of [checkAndUpdate]. *)
Definition cycle_body (g : Globals) : prog unit :=
  publicIp <- getPublicIp ;;
  if negb (truthy publicIp)
  then Log Error MNoPublicIp (Ret tt)
  else for_each_domain g publicIp (DOMAINS g).

(** The guard on [isRunning] and the [try ... finally] around a body. *)
Definition with_cycle_guard (body : prog unit) : prog unit :=
  GetRunning (fun running =>
    if running
    then Log Warn MCycleBusy (Ret tt)
    else SetRunning true (try_finally body (SetRunning false (Ret tt)))).

Definition checkAndUpdate (g : Globals) : prog unit :=
  with_cycle_guard (cycle_body g).

(* ===================================================================== *)
(** * Running a program to completion *)
(* ===================================================================== *)

(** The environment: the answer to the [n]-th request of the process, and
    the [n]-th random draw. *)
Record World : Type := mkWorld {
  respond : nat -> request -> FetchResult;
  draw : nat -> Z
}.

Inductive event : Type :=
| EvFetch (r : request)
| EvSleep (ms : Z)
| EvLog (l : level) (m : message).

(** The mutable state: the [isRunning] flag, the number of requests and
    of random draws made so far, and what the process did, oldest
    first. *)
Record St : Type := mkSt {
  isRunning : bool;
  calls : nat;
  draws : nat;
  trace : list event
}.

Definition emit (e : event) (s : St) : St :=
  mkSt (isRunning s) (calls s) (draws s) (trace s ++ [e]).
Definition set_running (b : bool) (s : St) : St :=
  mkSt b (calls s) (draws s) (trace s).
Definition count_call (s : St) : St :=
  mkSt (isRunning s) (S (calls s)) (draws s) (trace s).
Definition count_draw (s : St) : St :=
  mkSt (isRunning s) (calls s) (S (draws s)) (trace s).

Inductive outcome (A : Type) : Type :=
| Returned (a : A)
| Thrown (e : exn).
Arguments Returned {A} a.
Arguments Thrown {A} e.

(** [Math.floor(Math.random() * n)] *)
Definition random_below (w : World) (n : Z) (s : St) : Z := draw w (draws s) mod n.

(** One invocation run without any other code in between. *)
Fixpoint run {A} (w : World) (p : prog A) (s : St) : outcome A * St :=
  match p with
  | Ret a => (Returned a, s)
  | Throw e => (Thrown e, s)
  | Fetch r k => run w (k (respond w (calls s) r)) (count_call (emit (EvFetch r) s))
  | Sleep ms k => run w k (emit (EvSleep ms) s)
  | Log l m k => run w k (emit (EvLog l m) s)
  | GetRunning k => run w (k (isRunning s)) s
  | SetRunning b k => run w k (set_running b s)
  | RandomBelow n k => run w (k (random_below w n s)) (count_draw s)
  end.

(* ===================================================================== *)
(** * Invocations interleaved by the event loop *)
(* ===================================================================== *)

(** An invocation of [checkAndUpdate] between two turns of the event loop:
    suspended at an [await], or settled. *)
Inductive task : Type :=
| AwaitFetch (r : request) (k : FetchResult -> prog unit)
| AwaitSleep (ms : Z) (k : prog unit)
| Settled (o : outcome unit).

(** Run-to-completion: a program runs without interruption up to its next
    [await]. *)
Fixpoint advance (w : World) (p : prog unit) (s : St) : task * St :=
  match p with
  | Ret a => (Settled (Returned a), s)
  | Throw e => (Settled (Thrown e), s)
  | Fetch r k => (AwaitFetch r k, emit (EvFetch r) s)
  | Sleep ms k => (AwaitSleep ms k, emit (EvSleep ms) s)
  | Log l m k => advance w k (emit (EvLog l m) s)
  | GetRunning k => advance w (k (isRunning s)) s
  | SetRunning b k => advance w k (set_running b s)
  | RandomBelow n k => advance w (k (random_below w n s)) (count_draw s)
  end.

(** The event loop wakes a suspended invocation. *)
Definition resume (w : World) (t : task) (s : St) : task * St :=
  match t with
  | AwaitFetch r k => advance w (k (respond w (calls s) r)) (count_call s)
  | AwaitSleep ms k => advance w k s
  | Settled o => (t, s)
  end.

Definition pending (t : task) : bool :=
  match t with
  | Settled _ => false
  | _ => true
  end.

(** The process: the shared state and every invocation made so far. *)
Record Sys : Type := mkSys {
  shared : St;
  tasks : list task
}.

(** One turn of the event loop: something calls [checkAndUpdate], at any
    moment whatever, or a suspended invocation is woken. *)
Inductive step (w : World) (g : Globals) : Sys -> Sys -> Prop :=
| step_invoke : forall sys t s',
    advance w (checkAndUpdate g) (shared sys) = (t, s') ->
    step w g sys (mkSys s' (tasks sys ++ [t]))
| step_resume : forall sys before t after t' s',
    tasks sys = before ++ t :: after ->
    pending t = true ->
    resume w t (shared sys) = (t', s') ->
    step w g sys (mkSys s' (before ++ t' :: after)).

Definition initial_St : St := mkSt false 0 0 [].

Inductive reachable (w : World) (g : Globals) : Sys -> Prop :=
| reachable_init : reachable w g (mkSys initial_St [])
| reachable_step : forall sys sys',
    reachable w g sys -> step w g sys sys' -> reachable w g sys'.

(** The invocations that are inside a cycle. *)
Definition cycles_in_progress (sys : Sys) : nat :=
  List.length (filter pending (tasks sys)).

(** Programs that never touch [isRunning] and send only requests that
    satisfy [P]. *)
Inductive only_requests {A : Type} (P : request -> Prop) : prog A -> Prop :=
| or_ret : forall a, only_requests P (Ret a)
| or_throw : forall e, only_requests P (Throw e)
| or_fetch : forall r k,
    P r -> (forall x, only_requests P (k x)) -> only_requests P (Fetch r k)
| or_sleep : forall ms k, only_requests P k -> only_requests P (Sleep ms k)
| or_log : forall l m k, only_requests P k -> only_requests P (Log l m k)
| or_random : forall n k,
    (forall x, only_requests P (k x)) -> only_requests P (RandomBelow n k).

(** What is left of an invocation that has passed the guard: it leaves
    [isRunning] alone until it clears it as its last act. *)
Inductive in_cycle : prog unit -> Prop :=
| ic_return : forall a, in_cycle (SetRunning false (Ret a))
| ic_throw : forall e, in_cycle (SetRunning false (Throw e))
| ic_fetch : forall r k, (forall x, in_cycle (k x)) -> in_cycle (Fetch r k)
| ic_sleep : forall ms k, in_cycle k -> in_cycle (Sleep ms k)
| ic_log : forall l m k, in_cycle k -> in_cycle (Log l m k)
| ic_random : forall n k, (forall x, in_cycle (k x)) -> in_cycle (RandomBelow n k).

Definition task_in_cycle (t : task) : Prop :=
  match t with
  | AwaitFetch _ k => forall x, in_cycle (k x)
  | AwaitSleep _ k => in_cycle k
  | Settled _ => True
  end.

(** ** Reading traces *)

Definition is_fetch (e : event) : bool :=
  match e with EvFetch _ => true | _ => false end.

Definition is_patch (e : event) : bool :=
  match e with EvFetch (ReqPatchRecord _ _ _ _ _ _ _) => true | _ => false end.

Definition is_telegram_skip (e : event) : bool :=
  match e with EvLog Warn MTelegramSkipped => true | _ => false end.

(** The delays slept, in order. *)
Fixpoint sleeps (t : list event) : list Z :=
  match t with
  | [] => []
  | EvSleep ms :: r => ms :: sleeps r
  | _ :: r => sleeps r
  end.

(** A program that ends, after log lines only, in a given way. *)
Inductive settles_with {A : Type} : prog A -> outcome A -> list event -> Prop :=
| sw_ret : forall a, settles_with (Ret a) (Returned a) []
| sw_throw : forall e, settles_with (Throw e) (Thrown e) []
| sw_log : forall l m k o t,
    settles_with k o t -> settles_with (Log l m k) o (EvLog l m :: t).

Definition request_of (d : DomainConfig) : request :=
  ReqListARecords (zoneId d) (name d) (apiToken d).

(* ===================================================================== *)
(** * Timers and shutdown *)
(* ===================================================================== *)

Module Lifecycle.

Definition CHECK_INTERVAL_SECONDS : Z := 60.

Inductive signal : Type := SIGINT | SIGTERM.

(** The three functions the script hands to [setTimeout] and
    [setInterval]. *)
Inductive callback : Type :=
| NextCheck      (* the arrow function of scheduleNextCheck *)
| PollCycle      (* the setInterval callback of gracefulShutdown *)
| ForceExit.     (* the 30000 ms setTimeout callback of gracefulShutdown *)

Record timer_entry : Type := mkTimer {
  handle : nat;
  due : Z;
  every : option Z;        (* the period of an interval *)
  action : callback
}.

Inductive note : Type :=
| NoteStopping (sig : signal)
| NoteTimerCancelled
| NoteWaiting
| NoteStopped
| NoteForced
| NoteCycleBusy
| NoteUnhandledRejection.

(** The process at one instant.  [settles] is the instant at which the
    cycle now running will reach its [finally] block, if it ever does;
    the script cannot read it.  [queue] holds the timers armed by
    [scheduleNextCheck] and [gracefulShutdown]; the timers a running
    cycle sleeps on belong to the cycle and are summed up in [settles]. *)
Record Proc : Type := mkProc {
  now : Z;
  isRunning : bool;
  isShuttingDown : bool;
  timer : option nat;
  queue : list timer_entry;
  fresh : nat;
  settles : option Z;
  exit_code : option Z;
  notes : list note
}.

Definition with_now (t : Z) (p : Proc) : Proc :=
  mkProc t (isRunning p) (isShuttingDown p) (timer p) (queue p) (fresh p)
         (settles p) (exit_code p) (notes p).
Definition with_queue (q : list timer_entry) (p : Proc) : Proc :=
  mkProc (now p) (isRunning p) (isShuttingDown p) (timer p) q (fresh p)
         (settles p) (exit_code p) (notes p).
Definition with_timer (h : option nat) (p : Proc) : Proc :=
  mkProc (now p) (isRunning p) (isShuttingDown p) h (queue p) (fresh p)
         (settles p) (exit_code p) (notes p).
Definition with_cycle (r : bool) (c : option Z) (p : Proc) : Proc :=
  mkProc (now p) r (isShuttingDown p) (timer p) (queue p) (fresh p)
         c (exit_code p) (notes p).
Definition shutting_down (p : Proc) : Proc :=
  mkProc (now p) (isRunning p) true (timer p) (queue p) (fresh p)
         (settles p) (exit_code p) (notes p).
Definition say (n : note) (p : Proc) : Proc :=
  mkProc (now p) (isRunning p) (isShuttingDown p) (timer p) (queue p) (fresh p)
         (settles p) (exit_code p) (notes p ++ [n]).
Definition process_exit (code : Z) (p : Proc) : Proc :=
  mkProc (now p) (isRunning p) (isShuttingDown p) (timer p) (queue p) (fresh p)
         (settles p) (Some code) (notes p).

Definition arm (act : callback) (ms : Z) (period : option Z) (p : Proc) : nat * Proc :=
  (fresh p,
   mkProc (now p) (isRunning p) (isShuttingDown p) (timer p)
          (queue p ++ [mkTimer (fresh p) (now p + ms) period act])
          (S (fresh p)) (settles p) (exit_code p) (notes p)).

Definition setTimeout (act : callback) (ms : Z) (p : Proc) : nat * Proc :=
  arm act ms None p.
Definition setInterval (act : callback) (ms : Z) (p : Proc) : nat * Proc :=
  arm act ms (Some ms) p.

(** Clearing a handle that is not armed does nothing. *)
Definition clearTimeout (h : nat) (p : Proc) : Proc :=
  with_queue (filter (fun e => negb (Nat.eqb (handle e) h)) (queue p)) p.
Definition clearInterval (h : nat) (p : Proc) : Proc := clearTimeout h p.

Definition scheduleNextCheck (p : Proc) : Proc :=
  if isShuttingDown p then p
  else let (h, p') := setTimeout NextCheck (CHECK_INTERVAL_SECONDS * 1000) p in
       with_timer (Some h) p'.

Definition gracefulShutdown (sig : signal) (p : Proc) : Proc :=
  if isShuttingDown p then p
  else
    let p1 := say (NoteStopping sig) (shutting_down p) in
    let p2 := match timer p1 with
              | Some h => say NoteTimerCancelled (clearTimeout h p1)
              | None => p1
              end in
    if isRunning p2 then
      let p3 := say NoteWaiting p2 in
      let (_, p4) := setInterval PollCycle 100 p3 in
      let (_, p5) := setTimeout ForceExit 30000 p4 in
      p5
    else process_exit 0 (say NoteStopped p2).

Section EventLoop.
(** How long the cycle started at a given instant takes; [None] for
    one that hangs. *)
Variable cycle_length : Z -> option Z.
(** Whether the cycle that reaches its [finally] block at a given
    instant does so by throwing. *)
Variable cycle_throws : Z -> bool.

(** [checkAndUpdate()] called by the [NextCheck] callback, seen from
    the timers: a busy flag makes it return at once, and the callback
    goes on to [scheduleNextCheck()]. *)
Definition begin_cycle (p : Proc) : Proc :=
  if isRunning p then scheduleNextCheck (say NoteCycleBusy p)
  else with_cycle true
         (match cycle_length (now p) with
          | Some d => Some (now p + d)
          | None => None
          end) p.

(** The running cycle reaches [finally] and returns, and the callback
    that awaited it goes on to [scheduleNextCheck()]. *)
Definition end_cycle (p : Proc) : Proc :=
  scheduleNextCheck (with_cycle false None p).

(** The running cycle reaches [finally] and throws.  The callback that
    awaited it has no [catch]: it is left before [scheduleNextCheck()],
    its promise is rejected, and since nothing handles the rejection
    Node.js (from version 15 on; the script asks for 18) ends the
    process with status 1. *)
Definition abort_cycle (p : Proc) : Proc :=
  process_exit 1 (say NoteUnhandledRejection (with_cycle false None p)).

Definition run_callback (e : timer_entry) (p : Proc) : Proc :=
  match action e with
  | NextCheck => begin_cycle p
  | PollCycle =>
      if negb (isRunning p)
      then process_exit 0 (say NoteStopped (clearInterval (handle e) p))
      else p
  | ForceExit => process_exit 1 (say NoteForced p)
  end.

(** A timer that fires leaves the queue; an interval stays, due one
    period later. *)
Fixpoint rearm (e : timer_entry) (q : list timer_entry) : list timer_entry :=
  match q with
  | [] => []
  | x :: r =>
      if Nat.eqb (handle x) (handle e)
      then match every e with
           | Some d => mkTimer (handle x) (due e + d) (every x) (action x) :: r
           | None => r
           end
      else x :: rearm e r
  end.

Definition fire (e : timer_entry) (p : Proc) : Proc :=
  run_callback e (with_queue (rearm e (queue p)) (with_now (due e) p)).

(** Nothing else is due before [t]. *)
Definition earliest (p : Proc) (t : Z) : Prop :=
  (forall e, In e (queue p) -> t <= due e) /\
  (forall c, isRunning p = true -> settles p = Some c -> t <= c).

(** One turn of the event loop: whatever is due first happens, in
    either order when two things are due at the same instant. *)
Inductive loop_step : Proc -> Proc -> Prop :=
| step_timer : forall p e,
    exit_code p = None ->
    In e (queue p) ->
    earliest p (due e) ->
    loop_step p (fire e p)
| step_settle : forall p c,
    exit_code p = None ->
    isRunning p = true ->
    settles p = Some c ->
    earliest p c ->
    cycle_throws c = false ->
    loop_step p (end_cycle (with_now c p))
| step_throw : forall p c,
    exit_code p = None ->
    isRunning p = true ->
    settles p = Some c ->
    earliest p c ->
    cycle_throws c = true ->
    loop_step p (abort_cycle (with_now c p)).

End EventLoop.

(** The states the process goes through between a signal that finds a
    cycle running and its exit. *)
Section ShutdownStates.
Variable held : option nat.        (* the variable [timer] *)
Variable first : nat.              (* the handle of the interval *)
Variable deadline : Z.             (* the instant of the forced exit *)
Variable said : list note.



End ShutdownStates.

(** The states of the process before any signal: nothing is armed, or
    the one timer of [scheduleNextCheck] is, its handle held in [timer],
    and then no cycle is running. *)
Definition steady (p : Proc) : Prop :=
  exit_code p = None /\
  isShuttingDown p = false /\
  (queue p = [] \/
   exists h at_,
     queue p = [mkTimer h at_ None NextCheck] /\
     timer p = Some h /\ isRunning p = false).

(** Any number of turns of the event loop. *)
Inductive loop_steps (cycle_length : Z -> option Z) (cycle_throws : Z -> bool)
  : Proc -> Proc -> Prop :=
| loop_steps_refl : forall p, loop_steps cycle_length cycle_throws p p
| loop_steps_more : forall p q r,
    loop_steps cycle_length cycle_throws p q ->
    loop_step cycle_length cycle_throws q r ->
    loop_steps cycle_length cycle_throws p r.

(** The process has been ended by a cycle that threw: the flag is
    cleared, nothing is armed, and the exit status is 1. *)
Definition crashed (p : Proc) : Prop :=
  exit_code p = Some 1 /\
  isRunning p = false /\
  queue p = [] /\
  In NoteUnhandledRejection (notes p).

(** The invariant of the steady phase: the timer of [scheduleNextCheck]
    is armed only between two cycles, due one interval after the instant
    the process is at, and no tick has found a cycle running. *)
Definition paced (p : Proc) : Prop :=
  steady p /\
  (forall e, In e (queue p) -> due e = now p + CHECK_INTERVAL_SECONDS * 1000) /\
  ~ In NoteCycleBusy (notes p).

(** Shutdown has begun and no check is scheduled. *)
Definition winding_down (p : Proc) : Prop :=
  isShuttingDown p = true /\
  forall e, In e (queue p) -> action e <> NextCheck.

End Lifecycle.

(* ===================================================================== *)
(** * Vocabulary of the statements *)
(* ===================================================================== *)

(** The entries of [config.domains] that pass the filter of [loadConfig]. *)
Definition retained (c : Config) : list DomainConfig :=
  match domains c with
  | None => []
  | Some l =>
      flat_map (fun e => match e with
                         | Entry d => if has_name_and_zone d then [d] else []
                         | EntryNull => []
                         end) l
  end.

(** The credential an entry ends up with: its own, else the default. *)
Definition resolved_credential (df : Defaults) (d : DomainConfig) : jsval :=
  js_or (apiToken d) (defaults_apiToken df).

(** No usable credential: a falsy value, or a string of white space. *)
Definition lacks_credential (df : Defaults) (d : DomainConfig) : Prop :=
  truthy (resolved_credential df d) = false \/
  trims_to_empty (resolved_credential df d) = Some true.

Definition emit_all (t : list event) (s : St) : St :=
  mkSt (isRunning s) (calls s) (draws s) (trace s ++ t).

Definition add_calls (n : nat) (s : St) : St :=
  mkSt (isRunning s) (n + calls s) (draws s) (trace s).


(** A configuration with one complete entry and one entry without a
    name. *)
Definition nameless_entry_file : ConfigFile :=
  FileParsed
    (mkConfig None
       (mkDefaults (VStr "default-token") VUndefined VUndefined)
       (Some [Entry (mkDomain (VStr "example.com") (VStr "zone-1")
                       VUndefined VUndefined VUndefined);
              Entry (mkDomain VUndefined (VStr "zone-2")
                       VUndefined VUndefined VUndefined)])).

(** Two entries for the same name and zone, with a ttl of 0 and of 300,
    an entry without a name, and one that leaves the ttl to the
    defaults. *)
Definition same_name_twice_config : Config :=
  mkConfig None
    (mkDefaults (VStr "default-token") (VNum 120) VUndefined)
    (Some [Entry (mkDomain (VStr "a.example") (VStr "zone-1")
                    VUndefined (VNum 0) VUndefined);
           Entry (mkDomain VUndefined (VStr "zone-9")
                    VUndefined (VNum 5) VUndefined);
           Entry (mkDomain (VStr "a.example") (VStr "zone-1")
                    VUndefined (VNum 300) VUndefined);
           Entry (mkDomain (VStr "b.example") (VStr "zone-2")
                    VUndefined VUndefined VUndefined)]).

(** A configuration whose only entry asks for a ttl of 0. *)
Definition zero_ttl_file : ConfigFile :=
  FileParsed
    (mkConfig None
       (mkDefaults (VStr "default-token") (VNum 120) VUndefined)
       (Some [Entry (mkDomain (VStr "example.com") (VStr "zone-1")
                       VUndefined (VNum 0) VUndefined)])).

(** The update request for a domain, a record id and a new address. *)
Definition patch_request (d : DomainConfig) (record content : jsval) : request :=
  ReqPatchRecord (zoneId d) record (apiToken d) (name d) content (ttl d) (proxied d).

(** A turn of an invocation that is inside its cycle either suspends it
    again, flag still up, or ends it, flag down. *)
Definition turn_ok (r : task * St) : Prop :=
  (pending (fst r) = true /\ task_in_cycle (fst r) /\ isRunning (snd r) = true) \/
  (pending (fst r) = false /\ isRunning (snd r) = false).

Definition count_pending (l : list task) : nat := List.length (filter pending l).

(** The invariant of the event loop: the invocations that are suspended
    are all inside a cycle, and there is one of them when [isRunning] is
    set and none when it is not. *)
Definition sys_inv (sys : Sys) : Prop :=
  Forall task_in_cycle (tasks sys) /\
  count_pending (tasks sys) = (if isRunning (shared sys) then 1 else 0)%nat.

(** The process after a first call of [checkAndUpdate] in a world. *)
Definition after_first_call (w : World) (g : Globals) : Sys :=
  mkSys (snd (advance w (checkAndUpdate g) initial_St))
        [fst (advance w (checkAndUpdate g) initial_St)].

(** Every domain of the list, fetched in turn from state [s], is found
    with a record that already holds the public address. *)
Inductive all_current (w : World) (publicIp : jsval) : list DomainConfig -> St -> Prop :=
| all_current_nil : forall s, all_current w publicIp [] s
| all_current_cons : forall d ds s rec s',
    run w (getARecord d) s = (Returned (Some rec), s') ->
    strict_eq (ip rec) publicIp = true ->
    all_current w publicIp ds (emit (EvLog Info (MMatches (name d) publicIp)) s') ->
    all_current w publicIp (d :: ds) s.

(** A credential that passes [validateConfig]: a string with something
    else than white space in it. *)
Definition usable_credential (v : jsval) : Prop :=
  exists s, v = VStr s /\ all_white s = false.

(** ** Worlds and configurations for the examples *)

(** A world that answers the requests of the process from a script, in
    the order in which they are made, and is unreachable afterwards. *)
Definition scripted (answers : list FetchResult) : World :=
  mkWorld (fun n _ => nth n answers (Rejected "unreachable")) (fun _ => 0).


Definition answer (d : Data) : FetchResult :=
  Responded (mkResponse true 200 (JsonData d)).

(** The echo service reporting an address. *)
Definition ip_answer (address : string) : FetchResult :=
  answer (mkData (VStr address) VUndefined ResultMissing VUndefined VUndefined VUndefined).

(** The provider listing one A record. *)
Definition record_answer (content id : string) : FetchResult :=
  answer (mkData VUndefined (VBool true)
            (ResultArray [DnsRecord (VStr content) (VStr id)])
            VUndefined VUndefined VUndefined).

(** The provider accepting an update. *)
Definition success_answer : FetchResult :=
  answer (mkData VUndefined (VBool true) ResultMissing VUndefined VUndefined VUndefined).

Definition server_error : FetchResult :=
  Responded (mkResponse false 500 NotJson).

Definition example_com : DomainConfig :=
  mkDomain (VStr "example.com") (VStr "zone-1") (VStr "token") (VNum 60) (VBool false).

Definition example_org : DomainConfig :=
  mkDomain (VStr "example.org") (VStr "zone-2") (VStr "token") (VNum 60) (VBool false).

(** The echo service reporting an address that is an object without a
    string form, as in [{"ip": {"toString": 1}}]. *)
Definition opaque_ip_answer : FetchResult :=
  answer (mkData (VObj false) VUndefined ResultMissing VUndefined VUndefined VUndefined).


(** The provider listing one A record whose content is an object
    without a string form, as in
    [{"success": true, "result": [{"content": {"toString": 1}, "id": "rec-2"}]}]. *)
Definition opaque_record_answer (id : string) : FetchResult :=
  answer (mkData VUndefined (VBool true)
            (ResultArray [DnsRecord (VObj false) (VStr id)])
            VUndefined VUndefined VUndefined).


(** Two domains, no notification credentials. *)
Definition quiet_globals : Globals :=
  mkGlobals VUndefined VUndefined [example_com; example_org].


(** The address is resolved and the only record already holds it. *)
Definition nothing_to_do : World :=
  scripted [ip_answer "1.2.3.4"; record_answer "1.2.3.4" "rec-1"].

(** The address is resolved and both records are stale; both updates are
    accepted. *)
Definition two_stale_records : World :=
  scripted [ip_answer "1.2.3.4";
            record_answer "9.9.9.9" "rec-1"; success_answer;
            record_answer "8.8.8.8" "rec-2"; success_answer].

(** Calls of the notifier made one after the other. *)
Fixpoint notify_each (g : Globals) (texts : list Notice) : prog (list bool) :=
  match texts with
  | [] => Ret []
  | text :: rest =>
      sent <- notify g text ;;
      others <- notify_each g rest ;;
      Ret (sent :: others)
  end.

(* ===================================================================== *)
(** * Start-up *)
(* ===================================================================== *)

Definition STARTUP_DELAY_SECONDS : Z := 60.
Definition STARTUP_RETRIES : nat := 5.

(** The log lines of [startupWithRetry]. *)
Inductive startup_line : Type :=
| LineWaitNetwork (seconds : Z)
| LineAttempt (attempt total : nat)
| LineNetworkReady (address : jsval)
| LineRetryLater (delayMs : Z)
| LineGaveUp (total : nat).

(** The body of [startupWithRetry]: log lines of its own around the
    asynchronous functions it awaits. *)
Inductive script (A : Type) : Type :=
| Done (a : A)
| Fail (e : exn)
| Say (l : level) (line : startup_line) (k : script A)
| AwaitValue (p : prog jsval) (k : jsval -> script A)
| AwaitUnit (p : prog unit) (k : script A).
Arguments Done {A} a.
Arguments Fail {A} e.
Arguments Say {A} l line k.
Arguments AwaitValue {A} p k.
Arguments AwaitUnit {A} p k.

(** The [for] loop of [startupWithRetry] from [attempt] on, [left] being
    the number of iterations until [attempt <= STARTUP_RETRIES] fails.
    The function has no [try]: the line that reports the address throws
    when the address has no string form, and an error thrown by
    [checkAndUpdate] passes through. *)
Fixpoint startup_loop (g : Globals) (left attempt : nat) : script bool :=
  match left with
  | O => Say Error (LineGaveUp STARTUP_RETRIES) (Done false)
  | S left' =>
      Say Info (LineAttempt attempt STARTUP_RETRIES)
        (AwaitValue getPublicIp (fun publicIp =>
           if truthy publicIp then
             if printable publicIp then
               Say Info (LineNetworkReady publicIp)
                 (AwaitUnit (checkAndUpdate g) (Done true))
             else Fail TypeError
           else if Nat.ltb attempt STARTUP_RETRIES then
             let delay := Z.min (5000 * Z.of_nat attempt) 30000 in
             Say Warn (LineRetryLater delay)
               (AwaitUnit (sleep delay) (startup_loop g left' (S attempt)))
           else startup_loop g left' (S attempt)))
  end.

Definition startupWithRetry (g : Globals) : script bool :=
  Say Info (LineWaitNetwork STARTUP_DELAY_SECONDS)
    (AwaitUnit (sleep (STARTUP_DELAY_SECONDS * 1000))
       (startup_loop g STARTUP_RETRIES 1)).

(** What the process did, start-up lines included, oldest first. *)
Inductive top_event : Type :=
| FromFunction (e : event)
| StartupLog (l : level) (line : startup_line).

Record Top : Type := mkTop {
  top_running : bool;
  top_calls : nat;
  top_draws : nat;
  top_log : list top_event
}.

(** An awaited function starts from the state of the process, with a
    trace of its own, which is appended to the log when it ends. *)
Definition enter (t : Top) : St :=
  mkSt (top_running t) (top_calls t) (top_draws t) [].
Definition leave (t : Top) (s : St) : Top :=
  mkTop (isRunning s) (calls s) (draws s)
        (top_log t ++ map FromFunction (trace s)).
Definition say_top (l : level) (line : startup_line) (t : Top) : Top :=
  mkTop (top_running t) (top_calls t) (top_draws t)
        (top_log t ++ [StartupLog l line]).

Fixpoint run_script {A} (w : World) (p : script A) (t : Top) : outcome A * Top :=
  match p with
  | Done a => (Returned a, t)
  | Fail e => (Thrown e, t)
  | Say l line k => run_script w k (say_top l line t)
  | AwaitValue q k =>
      match run w q (enter t) with
      | (Returned v, s) => run_script w (k v) (leave t s)
      | (Thrown e, s) => (Thrown e, leave t s)
      end
  | AwaitUnit q k =>
      match run w q (enter t) with
      | (Returned _, s) => run_script w k (leave t s)
      | (Thrown e, s) => (Thrown e, leave t s)
      end
  end.

(* ===================================================================== *)
(** * Vocabulary of the further properties *)
(* ===================================================================== *)

(** The requests of a trace, in order. *)
Fixpoint requests (t : list event) : list request :=
  match t with
  | [] => []
  | EvFetch r :: rest => r :: requests rest
  | _ :: rest => requests rest
  end.

(** The events of a log that come from the awaited functions. *)
Fixpoint inner_events (l : list top_event) : list event :=
  match l with
  | [] => []
  | FromFunction e :: rest => e :: inner_events rest
  | StartupLog _ _ :: rest => inner_events rest
  end.

(** What the echo service's answer makes [getPublicIp] return. *)
Definition resolved_ip (res : FetchResult) : jsval :=
  match res with
  | Rejected _ => VNull
  | Responded r =>
      if ok r then
        match payload r with
        | JsonData d => data_ip d
        | _ => VNull
        end
      else VNull
  end.

(** The error [getPublicIp] catches, if any. *)
Definition resolution_error (res : FetchResult) : option exn :=
  match res with
  | Rejected why => Some (NetworkError why)
  | Responded r =>
      if ok r then
        match payload r with
        | NotJson => Some JsonError
        | JsonNull => Some TypeError
        | JsonData _ => None
        end
      else Some (HttpError (status r))
  end.

(** The message service accepted the message. *)
Definition telegram_accepts (res : FetchResult) : bool :=
  match res with
  | Rejected _ => false
  | Responded r =>
      ok r && match payload r with
              | JsonData d => truthy (data_ok d)
              | _ => false
              end
  end.

Definition telegram_request (g : Globals) (text : Notice) (timeoutMs : Z) : request :=
  ReqSendMessage (TELEGRAM_BOT_TOKEN g) (TELEGRAM_CHAT_ID g) text timeoutMs.

(** The requests a cycle may send on behalf of one domain, the public
    address being [publicIp]: the listing of its records, an update that
    writes [publicIp] with the domain's ttl and proxied flag, and the
    notification of that update with the configured credentials. *)
Definition domain_request (g : Globals) (publicIp : jsval) (d : DomainConfig)
    (r : request) : Prop :=
  r = request_of d \/
  (exists record, r = patch_request d record publicIp) \/
  (exists old,
     r = telegram_request g
           (mkNotice (name d) old publicIp (ttl d) (truthy (proxied d))) 10000).

(** The waits of [retryCloudflareAPI] with its defaults. *)
Definition default_backoff : list Z := [1000; 2000].

(** The delay of [sendTelegramMessage] after failed attempt [attempt],
    with its jitter. *)
Definition telegram_delay (initialDelayMs : Z) (attempt : nat) (jitter : Z) : Z :=
  Z.min (initialDelayMs * 2 ^ (Z.of_nat attempt - 1)) 15000 + jitter.

(** The process when [startupWithRetry] has returned and nothing has
    been scheduled yet. *)
Definition fresh_process : Lifecycle.Proc :=
  Lifecycle.mkProc 0 false false None [] 0 None None [].

(** The process during its first periodic cycle: the tick came at
    60 s, the cycle will end five seconds later. *)
Definition mid_cycle_process : Lifecycle.Proc :=
  Lifecycle.mkProc 60000 true false (Some 0%nat) [] 1 (Some 65000) None [].


(** No cycle throws. *)
Definition no_cycle_throws : Z -> bool := fun _ => false.

(** The poll armed by a signal that arrives during that cycle. *)
Definition first_poll : Lifecycle.timer_entry :=
  Lifecycle.mkTimer 1 60100 (Some 100) Lifecycle.PollCycle.

(** Every cycle takes five seconds. *)
Definition five_second_cycles : Z -> option Z := fun _ => Some 5000.

(** The same document with another [telegram] section, or none. *)
Definition with_telegram (tg : option TelegramConfig) (c : Config) : Config :=
  mkConfig tg (defaults c) (domains c).

(** A complete entry, a blank one, and one that relies on the defaults. *)
Definition mixed_entries_file : ConfigFile :=
  FileParsed
    (mkConfig (Some (mkTelegram (VStr "bot") (VStr "chat")))
       (mkDefaults (VStr "default-token") VUndefined (VBool true))
       (Some [Entry (mkDomain (VStr "example.com") (VStr "zone-1")
                       (VStr "own-token") (VNum 300) (VBool false));
              Entry (mkDomain VUndefined VUndefined VUndefined VUndefined VUndefined);
              Entry (mkDomain (VStr "example.org") (VStr "zone-2")
                       VUndefined VUndefined VUndefined)])).

(* ===================================================================== *)
(** * Configuration: loading and validation *)
(* ===================================================================== *)

(** A configuration without domains ends the process with status 1. *)
Example boot_without_domains :
  boot (FileParsed (mkConfig None (mkDefaults (VStr "token") VUndefined VUndefined)
                      (Some [])))
  = Exited 1.
Proof. reflexivity. Qed.

(** A credential made of white space is no credential. *)
Example boot_with_blank_token :
  boot (FileParsed
          (mkConfig None (mkDefaults (VStr "  ") VUndefined VUndefined)
             (Some [Entry (mkDomain (VStr "example.com") (VStr "zone-1")
                             VUndefined VUndefined VUndefined)])))
  = Exited 1.
Proof. reflexivity. Qed.

(** A [defaults.ttl] of 0 is falsy and gives way to 60; an entry's own 0
    is kept. *)
Example default_ttl_zero : defaultTtl (mkDefaults VUndefined (VNum 0) VUndefined) = VNum 60.
Proof. reflexivity. Qed.

Lemma filter_entries_retained : forall l kept,
  filter_entries l = Some kept ->
  kept = flat_map (fun e => match e with
                            | Entry d => if has_name_and_zone d then [d] else []
                            | EntryNull => []
                            end) l.
Proof.
  induction l as [|e l IH]; simpl; intros kept H.
  - now inversion H.
  - destruct e as [|d]; [discriminate|].
    destruct (filter_entries l) as [r'|]; [|discriminate].
    inversion H; subst; clear H.
    rewrite (IH r' eq_refl).
    destruct (has_name_and_zone d); reflexivity.
Qed.

Lemma retained_has_name_and_zone : forall c d,
  In d (retained c) -> has_name_and_zone d = true.
Proof.
  intros c d. unfold retained. destruct (domains c) as [l|]; [|intros []].
  intros H. apply in_flat_map in H. destruct H as [e [_ H]].
  destruct e as [|d']; [destruct H|].
  destruct (has_name_and_zone d') eqn:E; [|destruct H].
  destruct H as [H|[]]. now subst.
Qed.

Lemma retained_in_domains : forall c d,
  In d (retained c) -> exists l, domains c = Some l /\ In (Entry d) l.
Proof.
  intros c d. unfold retained. destruct (domains c) as [l|]; [|intros []].
  intros H. exists l. split; [reflexivity|].
  apply in_flat_map in H. destruct H as [e [Hin H]].
  destruct e as [|d']; [destruct H|].
  destruct (has_name_and_zone d'); [|destruct H].
  destruct H as [H|[]]. now subst.
Qed.

(** What [loadConfig] leaves in [DOMAINS]. *)
Lemma loadConfig_domains : forall c g,
  loadConfig (FileParsed c) = Proceed g ->
  DOMAINS g = map (load_domain (defaults c)) (retained c).
Proof.
  intros c g. unfold loadConfig, retained.
  destruct (domains c) as [l|].
  - destruct (filter_entries l) as [kept|] eqn:E; [|discriminate].
    intros H. inversion H; subst; clear H. simpl.
    now rewrite (filter_entries_retained l kept E).
  - intros H. inversion H. reflexivity.
Qed.

Lemma loadConfig_never_throws : forall f, loadConfig f <> Uncaught.
Proof.
  intros [| | |c]; simpl; try discriminate.
  destruct (domains c) as [l|]; [|discriminate].
  destruct (filter_entries l); discriminate.
Qed.

(** An element without a usable token makes the first [forEach] of
    [validateConfig] throw or record an error. *)
Lemma check_domains_missing_token : forall ds index t,
  In t ds ->
  truthy (apiToken t) = false \/ trims_to_empty (apiToken t) = Some true ->
  check_domains index ds = None \/
  exists e r, check_domains index ds = Some (e :: r).
Proof.
  induction ds as [|d ds IH]; intros index t Hin Hbad; [destruct Hin|].
  simpl. destruct Hin as [->|Hin].
  - assert (Ht : check_domain index t = None \/
                 exists e r, check_domain index t = Some (e :: r)).
    { unfold check_domain.
      destruct (printable (js_or (name t) (VNum (Z.of_nat index + 1))));
        destruct (truthy (name t)); destruct (truthy (zoneId t));
        destruct (truthy (apiToken t)) eqn:Et;
        destruct Hbad as [Hbad|Hbad]; try discriminate Hbad;
        try rewrite Hbad; simpl; eauto.
      all: destruct (trims_to_empty (apiToken t)) as [[|]|]; simpl; eauto. }
    destruct Ht as [->|[e [r ->]]]; [now left|].
    destruct (check_domains (S index) ds) as [er|]; [right|now left].
    simpl. eauto.
  - destruct (check_domain index d) as [e|]; [|now left].
    destruct (IH (S index) t Hin Hbad) as [->|[e' [r ->]]]; [now left|].
    right. destruct e as [|x e]; simpl; eauto.
Qed.

Lemma fatal_exit_1 : forall A, fatal (@Exited A 1).
Proof. intros A. exists 1. split; [reflexivity|lia]. Qed.

Lemma fatal_uncaught : forall A, fatal (@Uncaught A).
Proof. intros A. exists 1. split; [reflexivity|lia]. Qed.

Lemma validateConfig_fatal : forall g,
  DOMAINS g = [] \/
  (exists t, In t (DOMAINS g) /\
             (truthy (apiToken t) = false \/ trims_to_empty (apiToken t) = Some true)) ->
  validateConfig g = Exited 1 \/ validateConfig g = Uncaught.
Proof.
  intros g [Hnil|[t [Hin Hbad]]]; unfold validateConfig.
  - rewrite Hnil. simpl. now left.
  - destruct (check_domains_missing_token (DOMAINS g) 0%nat t Hin Hbad) as [->|[e [r ->]]].
    + now right.
    + left. destruct (DOMAINS g); reflexivity.
Qed.

Lemma loadConfig_exit_code : forall f code, loadConfig f = Exited code -> code = 1.
Proof.
  intros [| | |c] code; simpl; try (intros H; now inversion H).
  destruct (domains c) as [l|]; [|discriminate].
  destruct (filter_entries l); [discriminate|].
  intros H; now inversion H.
Qed.

(** The loader never rewrites a name, a zone id or a chosen credential. *)
Lemma load_domain_credential : forall df d,
  apiToken (load_domain df d) = resolved_credential df d.
Proof. reflexivity. Qed.

(** C4, as amended.  Start-up ends with a non-zero status, before the
    start-up phase is entered, whenever no entry of [config.domains] has
    both a name and a zone id, or one of the entries that has both is left
    without a usable credential (its own or the default one).  Entries
    without a name or a zone id are dropped by the loader and are not by
    themselves a reason to reject. *)
Theorem C4_unusable_configuration_is_fatal : forall c,
  retained c = [] \/
  (exists d, In d (retained c) /\ lacks_credential (defaults c) d) ->
  fatal (boot (FileParsed c)).
Proof.
  intros c H. unfold boot.
  destruct (loadConfig (FileParsed c)) as [code| |g] eqn:E.
  - rewrite (loadConfig_exit_code _ _ E). apply fatal_exit_1.
  - apply fatal_uncaught.
  - assert (Hg : validateConfig g = Exited 1 \/ validateConfig g = Uncaught).
    { apply validateConfig_fatal. rewrite (loadConfig_domains c g E).
      destruct H as [->|[d [Hin Hbad]]]; [now left|right].
      exists (load_domain (defaults c) d). split.
      - now apply in_map.
      - rewrite load_domain_credential. exact Hbad. }
    destruct Hg as [->| ->]; [apply fatal_exit_1|apply fatal_uncaught].
Qed.

Lemma C4_unusable_configuration_witness :
  retained (mkConfig None (mkDefaults (VStr "token") VUndefined VUndefined) (Some [])) = [] /\
  fatal (boot (FileParsed
                 (mkConfig None (mkDefaults (VStr "token") VUndefined VUndefined)
                    (Some [])))).
Proof.
  split; [reflexivity|].
  apply C4_unusable_configuration_is_fatal. left. reflexivity.
Defined.

Lemma filter_entries_without_null : forall l,
  (forall e, In e l -> e <> EntryNull) ->
  exists kept, filter_entries l = Some kept.
Proof.
  induction l as [|e l IH]; intros H; simpl; [now exists []|].
  destruct e as [|d]; [exfalso; apply (H EntryNull); [now left|reflexivity]|].
  destruct IH as [kept ->]; [intros e He; apply H; now right|].
  eexists. reflexivity.
Qed.

Lemma usable_credential_truthy : forall v,
  usable_credential v -> truthy v = true /\ trims_to_empty v = Some false.
Proof.
  intros v [s [-> Hs]]. simpl. split; [|now rewrite Hs].
  destruct s; [discriminate Hs|reflexivity].
Qed.

Lemma check_domains_clean : forall ds index,
  (forall t, In t ds ->
     has_name_and_zone t = true /\ usable_credential (apiToken t)) ->
  check_domains index ds = Some [].
Proof.
  induction ds as [|d ds IH]; intros index H; simpl; [reflexivity|].
  destruct (H d (or_introl eq_refl)) as [Hnz Hcred].
  apply andb_prop in Hnz. destruct Hnz as [Hn Hz].
  destruct (usable_credential_truthy _ Hcred) as [Ht Hb].
  unfold check_domain. rewrite Hn, Hz, Ht, Hb. simpl.
  rewrite IH; [reflexivity|]. intros t Hin. apply H. now right.
Qed.

(** The other direction: a configuration is accepted as soon as its
    entries that have a name and a zone id, of which there is one at
    least, all have a string for zone id and a usable credential.  The
    entries without a name or a zone id play no part. *)
Lemma boot_accepts : forall c l,
  domains c = Some l ->
  (forall e, In e l -> e <> EntryNull) ->
  retained c <> [] ->
  (forall d, In d (retained c) ->
     has_substring (zoneId d) = true /\
     usable_credential (resolved_credential (defaults c) d) /\
     printable (name d) = true /\
     printable (ttl (load_domain (defaults c) d)) = true /\
     printable (proxied (load_domain (defaults c) d)) = true) ->
  exists g notes,
    boot (FileParsed c) = Proceed (g, notes) /\
    DOMAINS g = map (load_domain (defaults c)) (retained c).
Proof.
  intros c l Hl Hnull Hne Hgood.
  destruct (filter_entries_without_null l Hnull) as [kept Hkept].
  assert (Hload : exists g, loadConfig (FileParsed c) = Proceed g).
  { unfold loadConfig. rewrite Hl, Hkept. eexists. reflexivity. }
  destruct Hload as [g Hg].
  pose proof (loadConfig_domains c g Hg) as Hdom.
  assert (Hall : forall t, In t (DOMAINS g) ->
                   has_name_and_zone t = true /\ usable_credential (apiToken t) /\
                   has_substring (zoneId t) = true /\
                   printable (name t) = true /\ printable (ttl t) = true /\
                   printable (proxied t) = true).
  { intros t Hin. rewrite Hdom in Hin. apply in_map_iff in Hin.
    destruct Hin as [d [<- Hd]]. destruct (Hgood d Hd) as [Hz [Hc [Hn [Ht Hp]]]].
    repeat split; try assumption.
    exact (retained_has_name_and_zone c d Hd). }
  assert (Hsum : forallb summary_line_ok (DOMAINS g) = true).
  { apply forallb_forall. intros t Hin.
    destruct (Hall t Hin) as [_ [[s [Hs _]] [Hz [Hn [Ht Hp]]]]].
    unfold summary_line_ok. rewrite Hs, Hz, Hn, Ht, Hp. simpl.
    destruct (negb (String.eqb s "")); reflexivity. }
  assert (Hchk : check_domains 0 (DOMAINS g) = Some []).
  { apply check_domains_clean. intros t Hin.
    destruct (Hall t Hin) as [H1 [H2 _]]. split; assumption. }
  exists g. unfold boot. rewrite Hg. unfold validateConfig.
  rewrite Hchk, Hsum.
  destruct (DOMAINS g) as [|t ts] eqn:E.
  - exfalso. apply Hne. destruct (retained c); [reflexivity|discriminate Hdom].
  - simpl. eexists. split; [reflexivity|]. rewrite <- Hdom. reflexivity.
Qed.

(** At start-up the absence of notification credentials is reported by
    one warning of [validateConfig], apart from those of the notifier. *)
Lemma validateConfig_telegram_warning : forall g notes,
  validateConfig g = Proceed notes ->
  truthy (TELEGRAM_BOT_TOKEN g) = false \/ truthy (TELEGRAM_CHAT_ID g) = false ->
  notes = [TelegramNotConfigured; ConfigValid (List.length (DOMAINS g))].
Proof.
  intros g notes Hv Hcred. unfold validateConfig in Hv.
  destruct (check_domains 0 (DOMAINS g)) as [errs|]; [|discriminate].
  destruct (match DOMAINS g with [] => [NoDomains] | _ :: _ => [] end ++ errs);
    [|discriminate].
  destruct (forallb summary_line_ok (DOMAINS g)); [|discriminate].
  assert (Hguard : negb (truthy (TELEGRAM_BOT_TOKEN g))
                   || negb (truthy (TELEGRAM_CHAT_ID g)) = true).
  { destruct Hcred as [-> | ->]; simpl; [reflexivity|apply orb_true_r]. }
  rewrite Hguard in Hv. inversion Hv. reflexivity.
Qed.

(** C4 as stated fails: a configuration that holds an entry without a
    name next to a complete one is accepted, the nameless entry dropped. *)
Lemma C4_nameless_entry_is_dropped :
  boot nameless_entry_file =
    Proceed (mkGlobals VUndefined VUndefined
               [mkDomain (VStr "example.com") (VStr "zone-1")
                  (VStr "default-token") (VNum 60) (VBool false)],
             [TelegramNotConfigured; ConfigValid 1]) /\
  ~ fatal (boot nameless_entry_file).
Proof.
  split; [reflexivity|].
  intros [code [H _]]. discriminate H.
Qed.

Lemma load_domain_ttl : forall df d,
  (ttl d <> VUndefined -> ttl (load_domain df d) = ttl d) /\
  (ttl d = VUndefined -> truthy (defaults_ttl df) = true ->
   ttl (load_domain df d) = defaults_ttl df) /\
  (ttl d = VUndefined -> truthy (defaults_ttl df) = false ->
   ttl (load_domain df d) = VNum 60) /\
  (positive_integer (ttl d) = true ->
   positive_integer (ttl (load_domain df d)) = true).
Proof.
  intros df d. repeat split.
  - intros Hne. simpl. destruct (ttl d); congruence.
  - intros Hu Ht. simpl. rewrite Hu. unfold defaultTtl, js_or. now rewrite Ht.
  - intros Hu Ht. simpl. rewrite Hu. unfold defaultTtl, js_or. now rewrite Ht.
  - intros Hp. simpl. destruct (ttl d); simpl in *; congruence.
Qed.

(** C8, as amended.  The entries of [config.domains] that have a name
    and a zone id are loaded one for one and in their order, and the
    loaded domain keeps the name and the zone id of the entry it comes
    from.  Its ttl is that entry's own ttl whenever the entry has one,
    whatever that value is, and otherwise the default: [defaults.ttl]
    when that is truthy, 60 when it is not.  The loader does not check
    that the value is a positive integer; it is one when the entry's own
    value is. *)
Theorem C8_ttl_of_loaded_domain : forall c g,
  loadConfig (FileParsed c) = Proceed g ->
  (forall d, In d (retained c) ->
     exists l, domains c = Some l /\ In (Entry d) l) /\
  Forall2
    (fun d t =>
       name t = name d /\ zoneId t = zoneId d /\
       (ttl d <> VUndefined -> ttl t = ttl d) /\
       (ttl d = VUndefined -> truthy (defaults_ttl (defaults c)) = true ->
        ttl t = defaults_ttl (defaults c)) /\
       (ttl d = VUndefined -> truthy (defaults_ttl (defaults c)) = false ->
        ttl t = VNum 60) /\
       (positive_integer (ttl d) = true -> positive_integer (ttl t) = true))
    (retained c) (DOMAINS g).
Proof.
  intros c g E. split; [exact (retained_in_domains c)|].
  rewrite (loadConfig_domains c g E).
  induction (retained c) as [|d ds IH]; cbn [map]; constructor; [|exact IH].
  split; [reflexivity|]. split; [reflexivity|].
  exact (load_domain_ttl (defaults c) d).
Qed.

Lemma C8_ttl_of_loaded_domain_witness :
  Forall2
    (fun d t =>
       name t = name d /\ zoneId t = zoneId d /\
       (ttl d <> VUndefined -> ttl t = ttl d) /\
       (ttl d = VUndefined -> truthy (VNum 120) = true -> ttl t = VNum 120) /\
       (ttl d = VUndefined -> truthy (VNum 120) = false -> ttl t = VNum 60) /\
       (positive_integer (ttl d) = true -> positive_integer (ttl t) = true))
    [mkDomain (VStr "a.example") (VStr "zone-1") VUndefined (VNum 0) VUndefined;
     mkDomain (VStr "a.example") (VStr "zone-1") VUndefined (VNum 300) VUndefined;
     mkDomain (VStr "b.example") (VStr "zone-2") VUndefined VUndefined VUndefined]
    [mkDomain (VStr "a.example") (VStr "zone-1") (VStr "default-token")
       (VNum 0) (VBool false);
     mkDomain (VStr "a.example") (VStr "zone-1") (VStr "default-token")
       (VNum 300) (VBool false);
     mkDomain (VStr "b.example") (VStr "zone-2") (VStr "default-token")
       (VNum 120) (VBool false)].
Proof.
  exact (proj2 (C8_ttl_of_loaded_domain same_name_twice_config _ eq_refl)).
Defined.

(** C8 as stated fails: an entry that asks for a ttl of 0 is loaded with
    a ttl of 0, which is not a positive integer. *)
Lemma C8_zero_ttl_is_kept :
  loadConfig zero_ttl_file =
    Proceed (mkGlobals VUndefined VUndefined
               [mkDomain (VStr "example.com") (VStr "zone-1")
                  (VStr "default-token") (VNum 0) (VBool false)]) /\
  positive_integer (VNum 0) = false /\
  ~ (forall g t, loadConfig zero_ttl_file = Proceed g -> In t (DOMAINS g) ->
                 positive_integer (ttl t) = true).
Proof.
  split; [reflexivity|]. split; [reflexivity|].
  intros H.
  specialize (H _ (mkDomain (VStr "example.com") (VStr "zone-1")
                     (VStr "default-token") (VNum 0) (VBool false)) eq_refl).
  simpl in H. specialize (H (or_introl eq_refl)). discriminate H.
Qed.

(** The functions of the script are unfolded on request only. *)
Arguments getPublicIp : simpl never.
Arguments getARecord : simpl never.
Arguments updateARecord : simpl never.
Arguments sendTelegramMessage : simpl never.
Arguments notify : simpl never.
Arguments process_domain : simpl never.
Arguments cycle_body : simpl never.
Arguments checkAndUpdate : simpl never.

(* ===================================================================== *)
(** * Laws of the interpreter *)
(* ===================================================================== *)

Lemma emit_as_emit_all : forall e s, emit e s = emit_all [e] s.
Proof. reflexivity. Qed.

Lemma emit_all_nil : forall s, emit_all [] s = s.
Proof. intros [r c d t]. unfold emit_all; simpl. now rewrite app_nil_r. Qed.

Lemma emit_all_app : forall t1 t2 s,
  emit_all t2 (emit_all t1 s) = emit_all (t1 ++ t2) s.
Proof. intros t1 t2 s. unfold emit_all; simpl. now rewrite app_assoc. Qed.

Section RunLaws.
Variable w : World.

Lemma run_bind : forall A B (p : prog A) (f : A -> prog B) s,
  run w (bind p f) s =
  match run w p s with
  | (Returned a, s') => run w (f a) s'
  | (Thrown e, s') => (Thrown e, s')
  end.
Proof.
  induction p as [a|e|r k IH|ms k IH|l m k IH|k IH|b k IH|n k IH];
    intros f s; simpl; auto.
Qed.

Lemma run_try_catch : forall A (p : prog A) (h : exn -> prog A) s,
  run w (try_catch p h) s =
  match run w p s with
  | (Returned a, s') => (Returned a, s')
  | (Thrown e, s') => run w (h e) s'
  end.
Proof.
  induction p as [a|e|r k IH|ms k IH|l m k IH|k IH|b k IH|n k IH];
    intros h s; simpl; auto.
Qed.

Lemma run_try_finally : forall A (p : prog A) (fin : prog unit) s,
  run w (try_finally p fin) s =
  match run w p s with
  | (o, s') =>
      match run w fin s' with
      | (Returned _, s'') => (o, s'')
      | (Thrown e, s'') => (Thrown e, s'')
      end
  end.
Proof.
  induction p as [a|e|r k IH|ms k IH|l m k IH|k IH|b k IH|n k IH];
    intros fin s; simpl; auto.
  - rewrite run_bind. destruct (run w fin s) as [[u|e] s']; reflexivity.
  - rewrite run_bind. destruct (run w fin s) as [[u|e'] s']; reflexivity.
Qed.

(** A run only ever adds to the trace. *)
Lemma run_trace_grows : forall A (p : prog A) s,
  exists t, trace (snd (run w p s)) = trace s ++ t.
Proof.
  induction p as [a|e|r k IH|ms k IH|l m k IH|k IH|b k IH|n k IH];
    intros s; simpl.
  - exists []. now rewrite app_nil_r.
  - exists []. now rewrite app_nil_r.
  - destruct (IH (respond w (calls s) r) (count_call (emit (EvFetch r) s))) as [t Ht].
    rewrite Ht. simpl. rewrite <- app_assoc. eauto.
  - destruct (IH (emit (EvSleep ms) s)) as [t Ht].
    rewrite Ht. simpl. rewrite <- app_assoc. eauto.
  - destruct (IH (emit (EvLog l m) s)) as [t Ht].
    rewrite Ht. simpl. rewrite <- app_assoc. eauto.
  - apply IH.
  - destruct (IH (set_running b s)) as [t Ht]. rewrite Ht. simpl. eauto.
  - destruct (IH (random_below w n s) (count_draw s)) as [t Ht].
    rewrite Ht. simpl. eauto.
Qed.

Lemma run_keeps_events : forall A (p : prog A) s e,
  In e (trace s) -> In e (trace (snd (run w p s))).
Proof.
  intros A p s e H. destruct (run_trace_grows _ p s) as [t ->].
  apply in_or_app. now left.
Qed.

(** A program that ends after log lines only. *)
Lemma run_settles_with : forall A (p : prog A) o t s,
  settles_with p o t -> run w p s = (o, emit_all t s).
Proof.
  intros A p o t s H. revert s.
  induction H as [a|e|l m k o t H IH]; intros s; simpl.
  - now rewrite emit_all_nil.
  - now rewrite emit_all_nil.
  - rewrite IH, emit_as_emit_all, emit_all_app. reflexivity.
Qed.

(** What a program restricted to requests in [P] can do to the state. *)
Lemma run_only_requests : forall A (P : request -> Prop) (p : prog A) s,
  only_requests P p ->
  exists t,
    trace (snd (run w p s)) = trace s ++ t /\
    isRunning (snd (run w p s)) = isRunning s /\
    (forall r, In (EvFetch r) t -> P r).
Proof.
  intros A P p s H. revert s.
  induction H as [a|e|r k Hr Hk IH|ms k Hk IH|l m k Hk IH|n k Hk IH];
    intros s; simpl.
  - exists []. rewrite app_nil_r. repeat split; auto. intros r [].
  - exists []. rewrite app_nil_r. repeat split; auto. intros r [].
  - destruct (IH (respond w (calls s) r) (count_call (emit (EvFetch r) s)))
      as [t [Ht [Hf Hp]]].
    exists (EvFetch r :: t). rewrite Ht, Hf. simpl. rewrite <- app_assoc.
    repeat split; auto.
    intros r' [Heq|Hin]; [inversion Heq; now subst|auto].
  - destruct (IH (emit (EvSleep ms) s)) as [t [Ht [Hf Hp]]].
    exists (EvSleep ms :: t). rewrite Ht, Hf. simpl. rewrite <- app_assoc.
    repeat split; auto.
    intros r' [Heq|Hin]; [discriminate|auto].
  - destruct (IH (emit (EvLog l m) s)) as [t [Ht [Hf Hp]]].
    exists (EvLog l m :: t). rewrite Ht, Hf. simpl. rewrite <- app_assoc.
    repeat split; auto.
    intros r' [Heq|Hin]; [discriminate|auto].
  - destruct (IH (random_below w n s) (count_draw s)) as [t [Ht [Hf Hp]]].
    exists t. rewrite Ht, Hf. simpl. repeat split; auto.
Qed.
End RunLaws.

Arguments run_settles_with w {A p o t} s _.

(** ** Closure of [only_requests] *)

Lemma only_requests_bind : forall A B (P : request -> Prop) (p : prog A) (f : A -> prog B),
  only_requests P p -> (forall a, only_requests P (f a)) ->
  only_requests P (bind p f).
Proof.
  intros A B P p f H Hf.
  induction H; simpl; try constructor; auto.
Qed.

Lemma only_requests_try_catch : forall A (P : request -> Prop) (p : prog A) h,
  only_requests P p -> (forall e, only_requests P (h e)) ->
  only_requests P (try_catch p h).
Proof.
  intros A P p h H Hh.
  induction H; simpl; try constructor; auto.
Qed.

Lemma only_requests_weaken : forall A (P Q : request -> Prop) (p : prog A),
  (forall r, P r -> Q r) -> only_requests P p -> only_requests Q p.
Proof.
  intros A P Q p HPQ H. induction H; constructor; auto.
Qed.

(* ===================================================================== *)
(** * The retry helper *)
(* ===================================================================== *)

Lemma sleeps_app : forall t1 t2, sleeps (t1 ++ t2) = sleeps t1 ++ sleeps t2.
Proof.
  induction t1 as [|e t1 IH]; intros t2; simpl; [reflexivity|].
  destruct e; simpl; now rewrite IH.
Qed.

Lemma settles_with_no_sleep : forall A (p : prog A) o t,
  settles_with p o t -> sleeps t = [].
Proof. intros A p o t H. induction H; simpl; auto. Qed.

Lemma settles_with_no_fetch : forall A (p : prog A) o t,
  settles_with p o t -> forall r, ~ In (EvFetch r) t.
Proof.
  intros A p o t H. induction H; simpl; intros r; try tauto.
  intros [Heq|Hin]; [discriminate|]. now apply (IHsettles_with r).
Qed.

Arguments settles_with_no_sleep {A p o t} _.

(** Both provider calls are a single request followed by synchronous
    code: whatever the answer, one attempt ends at once. *)
Lemma getARecord_reply_settles : forall domain res,
  exists o t, settles_with (getARecord_reply domain res) o t.
Proof.
  intros domain [why|[okay code body]]; simpl.
  - eexists _, _; constructor.
  - destruct okay; simpl; [|eexists _, _; constructor].
    destruct body as [| |d]; try (eexists _, _; constructor).
    destruct (truthy (data_success d)).
    + destruct (data_result d) as [|[|[|c i] l]|];
        eexists _, _; repeat constructor.
    + eexists _, _; repeat constructor.
Qed.

Lemma updateARecord_reply_settles : forall res,
  exists o t, settles_with (updateARecord_reply res) o t.
Proof.
  intros [why|[okay code body]]; simpl.
  - eexists _, _; constructor.
  - destruct okay; simpl; [|eexists _, _; constructor].
    destruct body as [| |d]; try (eexists _, _; constructor).
    destruct (truthy (data_success d)); eexists _, _; constructor.
Qed.

(** The delays of the helper for its first five attempts. *)
Example backoff_delays :
  map (backoff_delay default_initialDelayMs) [1; 2; 3; 4; 5]%nat
  = [1000; 2000; 4000; 8000; 10000].
Proof. reflexivity. Qed.

(** One failure, then a record: two requests and one sleep of 1000 ms. *)
Example retry_once_then_found :
  run (scripted [server_error; record_answer "1.2.3.4" "rec-1"])
      (getARecord example_com) initial_St
  = (Returned (Some (mkARecord (VStr "1.2.3.4") (VStr "rec-1"))),
     mkSt false 2 0
          [EvFetch (request_of example_com);
           EvLog Warn (MRetrying (CtxGet (VStr "example.com")) 1 3 (HttpError 500) 1000);
           EvSleep 1000;
           EvFetch (request_of example_com)]).
Proof. reflexivity. Qed.

Section RetryLaws.
Variable w : World.
Context {A : Type}.
Variable req : request.
Variable reply : FetchResult -> prog A.
Variable ctx : context.
Variable retries : nat.
Variable initialDelayMs : Z.

Let fn : prog A := Fetch req reply.


End RetryLaws.



(* ===================================================================== *)
(** * What each function of the script may do *)
(* ===================================================================== *)

Lemma only_requests_retry_loop :
  forall A (P : request -> Prop) (fn : prog A) ctx retries initialDelayMs left attempt,
  only_requests P fn ->
  only_requests P (retry_loop fn ctx retries initialDelayMs left attempt).
Proof.
  intros A P fn ctx retries initialDelayMs left.
  induction left as [|left IH]; intros attempt Hfn; simpl.
  - constructor.
  - apply only_requests_try_catch.
    + apply only_requests_bind; [exact Hfn|intros a; constructor].
    + intros e. destruct (Nat.eqb attempt retries); repeat constructor.
      now apply IH.
Qed.

Lemma only_requests_getPublicIp :
  only_requests (fun r => r = ReqPublicIp) getPublicIp.
Proof.
  unfold getPublicIp. apply only_requests_try_catch.
  - constructor; [reflexivity|].
    intros [why|[okay code body]]; simpl; [constructor|].
    destruct okay; simpl; [|constructor].
    destruct body; constructor.
  - intros e. repeat constructor.
Qed.

Lemma only_requests_getARecord_reply : forall P domain res,
  only_requests P (getARecord_reply domain res).
Proof.
  intros P domain [why|[okay code body]]; simpl; [constructor|].
  destruct okay; simpl; [|constructor].
  destruct body as [| |d]; try constructor.
  destruct (truthy (data_success d)); [|repeat constructor].
  destruct (data_result d) as [|[|[|c i] l]|]; repeat constructor.
Qed.

Lemma only_requests_getARecord : forall d,
  only_requests (fun r => r = request_of d) (getARecord d).
Proof.
  intros d. unfold getARecord. apply only_requests_try_catch.
  - apply only_requests_bind; [|intros a; constructor].
    apply only_requests_retry_loop. constructor; [reflexivity|].
    intros x. apply only_requests_getARecord_reply.
  - intros e. repeat constructor.
Qed.

Lemma only_requests_sendTelegramMessage : forall g text retries initialDelayMs timeoutMs,
  only_requests (fun _ => True)
    (sendTelegramMessage g text retries initialDelayMs timeoutMs).
Proof.
  intros g text retries initialDelayMs timeoutMs. unfold sendTelegramMessage.
  destruct (negb (truthy (TELEGRAM_BOT_TOKEN g)) || negb (truthy (TELEGRAM_CHAT_ID g)));
    [repeat constructor|].
  destruct (printable (TELEGRAM_BOT_TOKEN g)); [|constructor].
  generalize 1%nat as attempt. generalize retries at 2 as left.
  induction left as [|left IH]; intros attempt; simpl; [constructor|].
  constructor; [exact I|].
  intros [why|[okay code body]]; simpl.
  - constructor. intros j. destruct (Nat.eqb attempt retries); repeat constructor.
    apply IH.
  - destruct okay; simpl.
    + destruct body as [| |d]; simpl;
        try (constructor; intros j; destruct (Nat.eqb attempt retries);
             repeat constructor; apply IH).
      destruct (truthy (data_ok d)); simpl; [repeat constructor|].
      constructor. intros j. destruct (Nat.eqb attempt retries); repeat constructor.
      apply IH.
    + constructor. intros j. destruct (Nat.eqb attempt retries); repeat constructor.
      apply IH.
Qed.

Lemma only_requests_updateARecord : forall g d record newIp oldIp,
  only_requests (fun _ => True) (updateARecord g d record newIp oldIp).
Proof.
  intros g d record newIp oldIp. unfold updateARecord.
  apply only_requests_try_catch.
  - apply only_requests_bind.
    + apply only_requests_retry_loop. unfold updateARecord_attempt.
      destruct (printable record); [|constructor].
      constructor; [exact I|].
      intros [why|[okay code body]]; simpl; [constructor|].
      destruct okay; simpl; [|constructor].
      destruct body as [| |b]; try constructor.
      destruct (truthy (data_success b)); constructor.
    + intros [[|]|]; try constructor.
      destruct (printable newIp); [|constructor]. constructor.
      destruct (printable oldIp); [|constructor].
      apply only_requests_bind; [|intros a; constructor].
      apply only_requests_sendTelegramMessage.
  - intros e. repeat constructor.
Qed.

Lemma only_requests_process_domain : forall g publicIp d,
  only_requests (fun _ => True) (process_domain g publicIp d).
Proof.
  intros g publicIp d. unfold process_domain.
  apply only_requests_bind.
  - apply only_requests_weaken with (P := fun r => r = request_of d); [auto|].
    apply only_requests_getARecord.
  - intros [rec|]; [|constructor].
    destruct (strict_eq (ip rec) publicIp); [repeat constructor|].
    destruct (printable (ip rec) && printable publicIp); [|constructor].
    constructor. apply only_requests_updateARecord.
Qed.

Lemma only_requests_for_each_domain : forall g publicIp ds,
  only_requests (fun _ => True) (for_each_domain g publicIp ds).
Proof.
  intros g publicIp ds. induction ds as [|d ds IH]; cbn [for_each_domain];
    [constructor|].
  apply only_requests_bind; [apply only_requests_process_domain|auto].
Qed.

Lemma only_requests_cycle_body : forall g,
  only_requests (fun _ => True) (cycle_body g).
Proof.
  intros g. unfold cycle_body. apply only_requests_bind.
  - apply only_requests_weaken with (P := fun r => r = ReqPublicIp); [auto|].
    apply only_requests_getPublicIp.
  - intros publicIp. destruct (negb (truthy publicIp)); [repeat constructor|].
    apply only_requests_for_each_domain.
Qed.

(** ** Which errors leave a function *)

Section Settling.
Variable w : World.

Lemma try_catch_returns : forall A (p : prog A) h s,
  (forall e s0, exists a, fst (run w (h e) s0) = Returned a) ->
  exists a, fst (run w (try_catch p h) s) = Returned a.
Proof.
  intros A p h s Hh. rewrite run_try_catch.
  destruct (run w p s) as [[a|e] s']; [now exists a|apply Hh].
Qed.

Lemma getPublicIp_returns : forall s,
  exists v, fst (run w getPublicIp s) = Returned v.
Proof.
  intros s. apply try_catch_returns. intros e s0. now exists VNull.
Qed.

Lemma getARecord_returns : forall d s,
  exists r, fst (run w (getARecord d) s) = Returned r.
Proof.
  intros d s. apply try_catch_returns. intros e s0. now exists None.
Qed.

Lemma updateARecord_returns : forall g d record newIp oldIp s,
  fst (run w (updateARecord g d record newIp oldIp) s) = Returned tt.
Proof.
  intros g d record newIp oldIp s. unfold updateARecord.
  match goal with
  | |- fst (run w (try_catch ?p ?h) s) = _ =>
      destruct (try_catch_returns unit p h s) as [[] H]
  end.
  - intros e s0. now exists tt.
  - exact H.
Qed.

(** One iteration, by what [getARecord] gave. *)
Lemma process_domain_run : forall g publicIp d s,
  run w (process_domain g publicIp d) s =
  match run w (getARecord d) s with
  | (Returned None, s1) => (Returned tt, s1)
  | (Returned (Some rec), s1) =>
      if strict_eq (ip rec) publicIp
      then (Returned tt, emit (EvLog Info (MMatches (name d) publicIp)) s1)
      else if printable (ip rec) && printable publicIp
           then run w (updateARecord g d (recordId rec) publicIp (ip rec))
                    (emit (EvLog Info (MDiffers (name d) (ip rec) publicIp)) s1)
           else (Thrown TypeError, s1)
  | (Thrown e, s1) => (Thrown e, s1)
  end.
Proof.
  intros g publicIp d s. unfold process_domain. rewrite run_bind.
  destruct (run w (getARecord d) s) as [[[rec|]|e] s1]; try reflexivity.
  destruct (strict_eq (ip rec) publicIp); [reflexivity|].
  destruct (printable (ip rec) && printable publicIp); reflexivity.
Qed.

(** The only error that leaves an iteration is the [TypeError] of the
    line that reports a difference. *)
Lemma process_domain_settles : forall g publicIp d s,
  fst (run w (process_domain g publicIp d) s) = Returned tt \/
  fst (run w (process_domain g publicIp d) s) = Thrown TypeError.
Proof.
  intros g publicIp d s. rewrite process_domain_run.
  destruct (getARecord_returns d s) as [r Hr].
  destruct (run w (getARecord d) s) as [o s1]. simpl in Hr. subst o.
  destruct r as [rec|]; [|now left].
  destruct (strict_eq (ip rec) publicIp); [now left|].
  destruct (printable (ip rec) && printable publicIp); [|now right].
  left. apply updateARecord_returns.
Qed.

Lemma for_each_domain_cons : forall g publicIp d ds s,
  run w (for_each_domain g publicIp (d :: ds)) s =
  match run w (process_domain g publicIp d) s with
  | (Returned _, s1) => run w (for_each_domain g publicIp ds) s1
  | (Thrown e, s1) => (Thrown e, s1)
  end.
Proof. intros g publicIp d ds s. cbn [for_each_domain]. apply run_bind. Qed.

Lemma for_each_domain_settles : forall g publicIp ds s,
  fst (run w (for_each_domain g publicIp ds) s) = Returned tt \/
  fst (run w (for_each_domain g publicIp ds) s) = Thrown TypeError.
Proof.
  intros g publicIp ds. induction ds as [|d ds IH]; intros s; [now left|].
  rewrite for_each_domain_cons.
  pose proof (process_domain_settles g publicIp d s) as H.
  destruct (run w (process_domain g publicIp d) s) as [[[]|e] s1]; simpl in H.
  - apply IH.
  - destruct H as [H|H]; [discriminate H|]. right. exact H.
Qed.

(** The loop over two lists in a row is the loop over the first, then,
    unless an iteration threw, the loop over the second. *)
Lemma for_each_domain_app : forall g publicIp ds1 ds2 s,
  run w (for_each_domain g publicIp (ds1 ++ ds2)) s =
  match run w (for_each_domain g publicIp ds1) s with
  | (Returned _, s1) => run w (for_each_domain g publicIp ds2) s1
  | (Thrown e, s1) => (Thrown e, s1)
  end.
Proof.
  intros g publicIp ds1 ds2. induction ds1 as [|d ds1 IH]; intros s.
  - reflexivity.
  - cbn [app]. rewrite !for_each_domain_cons.
    destruct (run w (process_domain g publicIp d) s) as [[[]|e] s1];
      [apply IH|reflexivity].
Qed.

(** When the loop over the first list returns, the loop over both goes
    on from the state it left. *)
Lemma for_each_domain_app_returned : forall g publicIp ds1 ds2 s,
  fst (run w (for_each_domain g publicIp ds1) s) = Returned tt ->
  run w (for_each_domain g publicIp (ds1 ++ ds2)) s =
  run w (for_each_domain g publicIp ds2)
      (snd (run w (for_each_domain g publicIp ds1) s)).
Proof.
  intros g publicIp ds1 ds2 s H. rewrite for_each_domain_app.
  destruct (run w (for_each_domain g publicIp ds1) s) as [[[]|e] s1];
    [reflexivity|discriminate H].
Qed.
End Settling.

(* ===================================================================== *)
(** * Fetching a record *)
(* ===================================================================== *)

Section GetARecord.
Variable w : World.

(** The first thing [getARecord] does is to send its request. *)
Lemma getARecord_sends_first : forall d s,
  exists t, trace (snd (run w (getARecord d) s))
            = trace s ++ EvFetch (request_of d) :: t.
Proof.
  intros d s.
  assert (H : exists k, getARecord d = Fetch (request_of d) k)
    by (eexists; reflexivity).
  destruct H as [k ->]. cbn [run].
  destruct (run_trace_grows w _ (k (respond w (calls s) (request_of d)))
              (count_call (emit (EvFetch (request_of d)) s))) as [t Ht].
  exists t. rewrite Ht. simpl. now rewrite <- app_assoc.
Qed.


End GetARecord.



(* ===================================================================== *)
(** * The loop over the domains *)
(* ===================================================================== *)

Section DomainLoop.
Variable w : World.
Variable g : Globals.
Variable publicIp : jsval.




(** An iteration that finds a record without a string form, or that
    compares a record with an address without one, throws: the loop stops
    there. *)
Lemma process_domain_opaque : forall d s rec s1,
  run w (getARecord d) s = (Returned (Some rec), s1) ->
  strict_eq (ip rec) publicIp = false ->
  printable (ip rec) && printable publicIp = false ->
  run w (process_domain g publicIp d) s = (Thrown TypeError, s1).
Proof.
  intros d s rec s1 Hrec Hneq Hopaque.
  rewrite process_domain_run, Hrec, Hneq, Hopaque. reflexivity.
Qed.

(** A record that is the public address already: the iteration logs the
    match and does nothing more. *)
Lemma process_domain_match : forall d s rec s',
  run w (getARecord d) s = (Returned (Some rec), s') ->
  strict_eq (ip rec) publicIp = true ->
  run w (process_domain g publicIp d) s =
    (Returned tt, emit (EvLog Info (MMatches (name d) publicIp)) s').
Proof.
  intros d s rec s' Hrun Heq.
  rewrite process_domain_run, Hrun, Heq. reflexivity.
Qed.
End DomainLoop.




(* ===================================================================== *)
(** * One cycle *)
(* ===================================================================== *)

Section Cycle.
Variable w : World.

Lemma with_cycle_guard_busy : forall body s,
  isRunning s = true ->
  run w (with_cycle_guard body) s = (Returned tt, emit (EvLog Warn MCycleBusy) s).
Proof.
  intros body s H. unfold with_cycle_guard. cbn [run]. rewrite H. reflexivity.
Qed.

Lemma with_cycle_guard_free : forall body s,
  isRunning s = false ->
  run w (with_cycle_guard body) s =
    (fst (run w body (set_running true s)),
     set_running false (snd (run w body (set_running true s)))).
Proof.
  intros body s H. unfold with_cycle_guard. cbn [run]. rewrite H. cbn [run].
  rewrite run_try_finally.
  destruct (run w body (set_running true s)) as [o s']. reflexivity.
Qed.

Lemma cycle_body_run : forall g s,
  run w (cycle_body g) s =
  match run w getPublicIp s with
  | (Returned publicIp, s1) =>
      if negb (truthy publicIp)
      then (Returned tt, emit (EvLog Error MNoPublicIp) s1)
      else run w (for_each_domain g publicIp (DOMAINS g)) s1
  | (Thrown e, s1) => (Thrown e, s1)
  end.
Proof.
  intros g s. unfold cycle_body. rewrite run_bind.
  destruct (run w getPublicIp s) as [[publicIp|e] s1]; [|reflexivity].
  destruct (negb (truthy publicIp)); reflexivity.
Qed.

Lemma only_list_requests_no_patch : forall d seg,
  (forall r, In (EvFetch r) seg -> r = request_of d) ->
  forall e, In e seg -> is_patch e = false.
Proof.
  intros d seg H e Hin. destruct e as [r|ms|l m]; try reflexivity.
  rewrite (H r Hin). reflexivity.
Qed.
End Cycle.

(** The scenario of the specification: record 1.2.3.4, address 1.2.3.4. *)
Example cycle_with_nothing_to_do :
  run nothing_to_do (checkAndUpdate (mkGlobals VUndefined VUndefined [example_com]))
      initial_St
  = (Returned tt,
     mkSt false 2 0
          [EvFetch ReqPublicIp;
           EvFetch (request_of example_com);
           EvLog Info (MMatches (VStr "example.com") (VStr "1.2.3.4"))]).
Proof. reflexivity. Qed.

(** A cycle that finds every record already holding the public address
    sends no update at all: run again with an unchanged address, it
    leaves the provider's records as they are. *)
Lemma no_drift_no_update : forall w g publicIp ds s,
  all_current w publicIp ds s ->
  forall e, In e (trace (snd (run w (for_each_domain g publicIp ds) s))) ->
            In e (trace s) \/ is_patch e = false.
Proof.
  intros w g publicIp ds s H.
  induction H as [s|d ds s rec s' Hrec Heq Hall IH]; intros e Hin.
  - now left.
  - cbn [for_each_domain] in Hin. rewrite run_bind in Hin.
    rewrite (process_domain_match w g publicIp d s rec s' Hrec Heq) in Hin.
    destruct (IH e Hin) as [Hold|Hnew]; [|now right].
    destruct (run_only_requests w _ _ (getARecord d) s (only_requests_getARecord d))
      as [t [Ht [_ Honly]]].
    rewrite Hrec in Ht. simpl in Ht, Hold. rewrite Ht in Hold.
    apply in_app_or in Hold. destruct Hold as [Hold|[<-|[]]]; [|now right].
    apply in_app_or in Hold. destruct Hold as [Hold|Hold]; [now left|right].
    exact (only_list_requests_no_patch d t Honly e Hold).
Qed.

(** C3.  In a cycle that has resolved the public address, a domain whose
    fetched record holds that very string gets no update: between the
    state in which its iteration starts and the state in which the next
    one starts, the cycle sends the fetch requests of that domain, logs
    the match, and sends nothing else.  When the loop has come to that
    domain, the cycle then goes on over the later domains and ends as
    their loop does, the flag cleared. *)
Theorem C3_matching_record_is_not_updated :
  forall w g s0 (address : string) s before d after rec s1',
    isRunning s0 = false ->
    run w getPublicIp (set_running true s0) = (Returned (VStr address), s) ->
    address <> "" ->
    DOMAINS g = before ++ d :: after ->
    let publicIp := VStr address in
    let s1 := snd (run w (for_each_domain g publicIp before) s) in
    run w (getARecord d) s1 = (Returned (Some rec), s1') ->
    ip rec = VStr address ->
    exists seg s2,
      run w (process_domain g publicIp d) s1 = (Returned tt, s2) /\
      trace s2 = trace s1 ++ seg /\
      (forall r, In (EvFetch r) seg -> r = request_of d) /\
      (forall e, In e seg -> is_patch e = false) /\
      (fst (run w (for_each_domain g publicIp before) s) = Returned tt ->
       run w (checkAndUpdate g) s0 =
         (fst (run w (for_each_domain g publicIp after) s2),
          set_running false (snd (run w (for_each_domain g publicIp after) s2)))).
Proof.
  intros w g s0 address s before d after rec s1' Hfree Hip Hne Hdom publicIp s1
         Hrec Hsame.
  assert (Heq : strict_eq (ip rec) publicIp = true).
  { rewrite Hsame. unfold publicIp. simpl. apply String.eqb_refl. }
  pose proof (process_domain_match w g publicIp d s1 rec s1' Hrec Heq) as Hpd.
  destruct (run_only_requests w _ _ (getARecord d) s1 (only_requests_getARecord d))
    as [t [Ht [_ Honly]]].
  rewrite Hrec in Ht. simpl in Ht.
  set (s2 := emit (EvLog Info (MMatches (name d) publicIp)) s1').
  assert (Hseg : forall r, In (EvFetch r)
                             (t ++ [EvLog Info (MMatches (name d) publicIp)]) ->
                           r = request_of d).
  { intros r Hin. apply in_app_or in Hin. destruct Hin as [Hin|[Hin|[]]].
    - now apply Honly.
    - discriminate Hin. }
  exists (t ++ [EvLog Info (MMatches (name d) publicIp)]), s2.
  split; [exact Hpd|]. split.
  { unfold s2. simpl. rewrite Ht. now rewrite app_assoc. }
  split; [exact Hseg|].
  split; [exact (only_list_requests_no_patch d _ Hseg)|].
  intros Hbefore.
  unfold checkAndUpdate. rewrite (with_cycle_guard_free w _ s0 Hfree).
  rewrite cycle_body_run, Hip.
  assert (Htruthy : negb (truthy (VStr address)) = false).
  { simpl. destruct (String.eqb address "") eqn:E; [|reflexivity].
    apply String.eqb_eq in E. contradiction. }
  rewrite Htruthy, Hdom.
  fold publicIp.
  rewrite (for_each_domain_app_returned w g publicIp before (d :: after) s Hbefore).
  fold s1. rewrite for_each_domain_cons, Hpd. reflexivity.
Qed.

Lemma C3_matching_record_witness :
  exists seg s2,
    run nothing_to_do
        (process_domain (mkGlobals VUndefined VUndefined [example_com])
           (VStr "1.2.3.4") example_com)
        (mkSt true 1 0 [EvFetch ReqPublicIp])
      = (Returned tt, s2) /\
    trace s2 = [EvFetch ReqPublicIp] ++ seg /\
    (forall r, In (EvFetch r) seg -> r = request_of example_com) /\
    (forall e, In e seg -> is_patch e = false) /\
    run nothing_to_do
        (checkAndUpdate (mkGlobals VUndefined VUndefined [example_com])) initial_St
      = (Returned tt,
         set_running false
           (snd (run nothing_to_do
                   (for_each_domain (mkGlobals VUndefined VUndefined [example_com])
                      (VStr "1.2.3.4") [])
                   s2))).
Proof.
  destruct (C3_matching_record_is_not_updated nothing_to_do
           (mkGlobals VUndefined VUndefined [example_com])
           initial_St "1.2.3.4" (mkSt true 1 0 [EvFetch ReqPublicIp])
           [] example_com []
           (mkARecord (VStr "1.2.3.4") (VStr "rec-1"))
           (mkSt true 2 0 [EvFetch ReqPublicIp; EvFetch (request_of example_com)]))
    as [seg [s2 [H1 [H2 [H3 [H4 H5]]]]]].
  - reflexivity.
  - reflexivity.
  - discriminate.
  - reflexivity.
  - reflexivity.
  - reflexivity.
  - exists seg, s2. repeat split; try assumption. exact (H5 eq_refl).
Defined.

(** C10.  An invocation that passes the guard leaves [isRunning] false
    when it ends, however it ends: by the early return taken when no
    public address was resolved, by the end of the loop over the domains
    (the invocation then ends as the loop does), or by an exception
    leaving the body, which the [finally] block lets through after
    clearing the flag. *)
Theorem C10_flag_cleared_on_every_exit :
  forall w s,
    isRunning s = false ->
    (forall body,
       isRunning (snd (run w (with_cycle_guard body) s)) = false /\
       fst (run w (with_cycle_guard body) s) = fst (run w body (set_running true s))) /\
    (forall g, isRunning (snd (run w (checkAndUpdate g) s)) = false) /\
    (forall g publicIp s1,
       run w getPublicIp (set_running true s) = (Returned publicIp, s1) ->
       truthy publicIp = false ->
       run w (checkAndUpdate g) s =
         (Returned tt, set_running false (emit (EvLog Error MNoPublicIp) s1))) /\
    (forall g publicIp s1,
       run w getPublicIp (set_running true s) = (Returned publicIp, s1) ->
       truthy publicIp = true ->
       run w (checkAndUpdate g) s =
         (fst (run w (for_each_domain g publicIp (DOMAINS g)) s1),
          set_running false (snd (run w (for_each_domain g publicIp (DOMAINS g)) s1)))) /\
    (forall body e s',
       run w body (set_running true s) = (Thrown e, s') ->
       run w (with_cycle_guard body) s = (Thrown e, set_running false s')).
Proof.
  intros w s Hfree. split; [|split; [|split; [|split]]].
  - intros body. now rewrite (with_cycle_guard_free w body s Hfree).
  - intros g. unfold checkAndUpdate.
    now rewrite (with_cycle_guard_free w (cycle_body g) s Hfree).
  - intros g publicIp s1 Hip Hfalsy. unfold checkAndUpdate.
    rewrite (with_cycle_guard_free w (cycle_body g) s Hfree).
    rewrite cycle_body_run, Hip, Hfalsy. reflexivity.
  - intros g publicIp s1 Hip Htruthy. unfold checkAndUpdate.
    rewrite (with_cycle_guard_free w (cycle_body g) s Hfree).
    rewrite cycle_body_run, Hip, Htruthy. cbn [negb]. reflexivity.
  - intros body e s' Hbody.
    rewrite (with_cycle_guard_free w body s Hfree), Hbody. reflexivity.
Qed.

Lemma C10_flag_cleared_witness :
  isRunning (snd (run (scripted []) (checkAndUpdate quiet_globals) initial_St)) = false /\
  run (scripted []) (with_cycle_guard (Sleep 5 (Throw TypeError))) initial_St
    = (Thrown TypeError, set_running false (mkSt true 0 0 [EvSleep 5])).
Proof.
  destruct (C10_flag_cleared_on_every_exit (scripted []) initial_St eq_refl)
    as [_ [Hg [_ [_ Hthrow]]]].
  split.
  - apply Hg.
  - apply Hthrow. reflexivity.
Defined.

(* ===================================================================== *)
(** * The notifier *)
(* ===================================================================== *)

Lemma sendTelegramMessage_unconfigured :
  forall g text retries initialDelayMs timeoutMs w s,
    truthy (TELEGRAM_BOT_TOKEN g) = false \/ truthy (TELEGRAM_CHAT_ID g) = false ->
    run w (sendTelegramMessage g text retries initialDelayMs timeoutMs) s
      = (Returned false, emit (EvLog Warn MTelegramSkipped) s).
Proof.
  intros g text retries initialDelayMs timeoutMs w s H.
  unfold sendTelegramMessage.
  assert (Hguard : negb (truthy (TELEGRAM_BOT_TOKEN g))
                   || negb (truthy (TELEGRAM_CHAT_ID g)) = true).
  { destruct H as [-> | ->]; simpl; [reflexivity|apply orb_true_r]. }
  rewrite Hguard. reflexivity.
Qed.

(** C7, as amended.  Without a bot token or without a chat id, every call
    of the notifier returns not-sent without sending anything, and logs
    the warning about the missing credentials: one warning for each
    call. *)
Theorem C7_notifier_without_credentials :
  forall g,
    truthy (TELEGRAM_BOT_TOKEN g) = false \/ truthy (TELEGRAM_CHAT_ID g) = false ->
    (forall text retries initialDelayMs timeoutMs w s,
       run w (sendTelegramMessage g text retries initialDelayMs timeoutMs) s
         = (Returned false, emit (EvLog Warn MTelegramSkipped) s)) /\
    (forall texts w s,
       run w (notify_each g texts) s
         = (Returned (map (fun _ => false) texts),
            emit_all (map (fun _ => EvLog Warn MTelegramSkipped) texts) s)).
Proof.
  intros g H. split.
  - intros. now apply sendTelegramMessage_unconfigured.
  - induction texts as [|text texts IH]; intros w s; cbn [notify_each map].
    + simpl. now rewrite emit_all_nil.
    + rewrite run_bind. unfold notify at 1.
      rewrite (sendTelegramMessage_unconfigured g text 5 500 10000 w s H).
      rewrite run_bind, IH. cbn [run].
      rewrite emit_as_emit_all, emit_all_app. reflexivity.
Qed.

Lemma C7_notifier_without_credentials_witness :
  run (scripted [])
      (notify_each quiet_globals
         [mkNotice (VStr "example.com") (VStr "9.9.9.9") (VStr "1.2.3.4") (VNum 60) false])
      initial_St
    = (Returned [false], mkSt false 0 0 [EvLog Warn MTelegramSkipped]).
Proof.
  apply (proj2 (C7_notifier_without_credentials quiet_globals (or_introl eq_refl))
           [mkNotice (VStr "example.com") (VStr "9.9.9.9") (VStr "1.2.3.4") (VNum 60) false]
           (scripted []) initial_St).
Defined.

(** C7 as stated fails: in one cycle that updates two records without
    notification credentials, the notifier is called twice and the
    warning is logged twice. *)
Lemma C7_warning_logged_on_each_call :
  List.length
    (filter is_telegram_skip
       (trace (snd (run two_stale_records (checkAndUpdate quiet_globals) initial_St))))
    = 2%nat /\
  ~ (List.length
       (filter is_telegram_skip
          (trace (snd (run two_stale_records (checkAndUpdate quiet_globals) initial_St))))
     <= 1)%nat.
Proof.
  assert (H : List.length
                (filter is_telegram_skip
                   (trace (snd (run two_stale_records
                                  (checkAndUpdate quiet_globals) initial_St))))
              = 2%nat) by reflexivity.
  split; [exact H|]. rewrite H. lia.
Qed.

(* ===================================================================== *)
(** * At most one cycle at a time *)
(* ===================================================================== *)

(** Once the guard is passed, what remains of [checkAndUpdate] is a body
    that leaves [isRunning] alone, followed by the [finally] block. *)
Lemma in_cycle_try_finally : forall (P : request -> Prop) (body : prog unit),
  only_requests P body ->
  in_cycle (try_finally body (SetRunning false (Ret tt))).
Proof.
  intros P body H. induction H; simpl; constructor; auto.
Qed.

Section Interleaving.
Variable w : World.
Variable g : Globals.

Lemma advance_in_cycle : forall p,
  in_cycle p -> forall s, isRunning s = true -> turn_ok (advance w p s).
Proof.
  intros p H. induction H as [a|e|r k Hk IH|ms k Hk IH|l m k Hk IH|n k Hk IH];
    intros s Hs; simpl.
  - right. split; reflexivity.
  - right. split; reflexivity.
  - left. repeat split; auto.
  - left. repeat split; auto.
  - apply IH. exact Hs.
  - apply IH. exact Hs.
Qed.

Lemma advance_checkAndUpdate_busy : forall s,
  isRunning s = true ->
  advance w (checkAndUpdate g) s
    = (Settled (Returned tt), emit (EvLog Warn MCycleBusy) s).
Proof.
  intros s Hs. unfold checkAndUpdate, with_cycle_guard. cbn [advance].
  rewrite Hs. reflexivity.
Qed.

Lemma advance_checkAndUpdate_free : forall s,
  isRunning s = false -> turn_ok (advance w (checkAndUpdate g) s).
Proof.
  intros s Hs. unfold checkAndUpdate, with_cycle_guard. cbn [advance].
  rewrite Hs. cbn [advance].
  apply advance_in_cycle; [|reflexivity].
  apply in_cycle_try_finally with (P := fun _ => True).
  apply only_requests_cycle_body.
Qed.

Lemma resume_in_cycle : forall t s,
  pending t = true -> task_in_cycle t -> isRunning s = true ->
  turn_ok (resume w t s).
Proof.
  intros [r k|ms k|o] s Hp Ht Hs; simpl in *.
  - apply advance_in_cycle; auto.
  - apply advance_in_cycle; auto.
  - discriminate.
Qed.

Lemma count_pending_app : forall l1 l2,
  count_pending (l1 ++ l2) = (count_pending l1 + count_pending l2)%nat.
Proof.
  intros l1 l2. unfold count_pending. now rewrite filter_app, length_app.
Qed.

Lemma count_pending_cons : forall t l,
  count_pending (t :: l) = ((if pending t then 1 else 0) + count_pending l)%nat.
Proof.
  intros t l. unfold count_pending. simpl. destruct (pending t); reflexivity.
Qed.

Lemma sys_inv_init : sys_inv (mkSys initial_St []).
Proof. split; [constructor|reflexivity]. Qed.

Lemma sys_inv_step : forall sys sys',
  sys_inv sys -> step w g sys sys' -> sys_inv sys'.
Proof.
  intros sys sys' [Hall Hcount] Hstep.
  destruct Hstep as [sys t s' Hadv|sys before t after t' s' Htasks Hpend Hres].
  - destruct (isRunning (shared sys)) eqn:Hs.
    + rewrite (advance_checkAndUpdate_busy _ Hs) in Hadv.
      inversion Hadv; subst; clear Hadv. split; simpl.
      * apply Forall_app. split; [exact Hall|repeat constructor].
      * rewrite count_pending_app, Hcount, Hs. reflexivity.
    + pose proof (advance_checkAndUpdate_free _ Hs) as Hturn.
      rewrite Hadv in Hturn. split; simpl.
      * apply Forall_app. split; [exact Hall|].
        constructor; [|constructor].
        destruct Hturn as [[_ [Ht _]]|[Hp _]]; [exact Ht|].
        simpl in Hp. destruct t; try discriminate. exact I.
      * rewrite count_pending_app, Hcount, count_pending_cons.
        destruct Hturn as [[Hp [_ Hr]]|[Hp Hr]]; simpl in Hp, Hr;
          rewrite Hp, Hr; reflexivity.
  - rewrite Htasks in Hall, Hcount.
    apply Forall_app in Hall. destruct Hall as [Hb Hta].
    inversion Hta as [|x l Ht Ha]; subst x l.
    rewrite count_pending_app, count_pending_cons, Hpend in Hcount.
    assert (Hs : isRunning (shared sys) = true).
    { destruct (isRunning (shared sys)); [reflexivity|lia]. }
    rewrite Hs in Hcount.
    pose proof (resume_in_cycle t (shared sys) Hpend Ht Hs) as Hturn.
    rewrite Hres in Hturn. split; simpl.
    + apply Forall_app. split; [exact Hb|]. constructor; [|exact Ha].
      destruct Hturn as [[_ [Ht' _]]|[Hp _]]; [exact Ht'|].
      simpl in Hp. destruct t'; try discriminate. exact I.
    + rewrite count_pending_app, count_pending_cons.
      destruct Hturn as [[Hp [_ Hr]]|[Hp Hr]]; simpl in Hp, Hr;
        rewrite Hp, Hr; lia.
Qed.

Lemma reachable_sys_inv : forall sys, reachable w g sys -> sys_inv sys.
Proof.
  intros sys H. induction H as [|sys sys' _ IH Hstep].
  - apply sys_inv_init.
  - exact (sys_inv_step sys sys' IH Hstep).
Qed.
End Interleaving.

(** C1.  In every state the event loop can reach, at most one invocation
    of [checkAndUpdate] is inside a cycle, and one is exactly when
    [isRunning] is set.  An invocation made while the flag is set logs
    the warning and returns in the same turn: it sends no request (so it
    neither resolves the address nor fetches or updates a record), it is
    never suspended, it leaves the flag and the running cycle as they
    are, and the number of cycles in progress stays the same. *)
Theorem C1_single_cycle_in_progress :
  forall w g sys,
    reachable w g sys ->
    (cycles_in_progress sys <= 1)%nat /\
    (cycles_in_progress sys = 1%nat <-> isRunning (shared sys) = true) /\
    (isRunning (shared sys) = true ->
     advance w (checkAndUpdate g) (shared sys)
       = (Settled (Returned tt), emit (EvLog Warn MCycleBusy) (shared sys)) /\
     run w (checkAndUpdate g) (shared sys)
       = (Returned tt, emit (EvLog Warn MCycleBusy) (shared sys)) /\
     step w g sys (mkSys (emit (EvLog Warn MCycleBusy) (shared sys))
                         (tasks sys ++ [Settled (Returned tt)])) /\
     cycles_in_progress (mkSys (emit (EvLog Warn MCycleBusy) (shared sys))
                               (tasks sys ++ [Settled (Returned tt)]))
       = cycles_in_progress sys).
Proof.
  intros w g sys Hreach.
  destruct (reachable_sys_inv w g sys Hreach) as [_ Hcount].
  unfold cycles_in_progress. fold (count_pending (tasks sys)).
  rewrite Hcount. split; [|split].
  - destruct (isRunning (shared sys)); lia.
  - destruct (isRunning (shared sys)); split; intros Heq;
      try reflexivity; discriminate Heq.
  - intros Hbusy. split; [|split; [|split]].
    + now apply advance_checkAndUpdate_busy.
    + unfold checkAndUpdate. now apply with_cycle_guard_busy.
    + apply step_invoke. now apply advance_checkAndUpdate_busy.
    + cbn [tasks]. fold (count_pending (tasks sys ++ [Settled (Returned tt)])).
      rewrite count_pending_app, Hcount, Hbusy. reflexivity.
Qed.

Lemma C1_single_cycle_witness :
  reachable nothing_to_do quiet_globals (after_first_call nothing_to_do quiet_globals) /\
  cycles_in_progress (after_first_call nothing_to_do quiet_globals) = 1%nat /\
  advance nothing_to_do (checkAndUpdate quiet_globals)
          (shared (after_first_call nothing_to_do quiet_globals))
    = (Settled (Returned tt),
       mkSt true 0 0 [EvFetch ReqPublicIp; EvLog Warn MCycleBusy]).
Proof.
  assert (Hreach : reachable nothing_to_do quiet_globals
                     (after_first_call nothing_to_do quiet_globals)).
  { apply (reachable_step nothing_to_do quiet_globals (mkSys initial_St []));
      [apply reachable_init|].
    apply (step_invoke nothing_to_do quiet_globals (mkSys initial_St [])).
    reflexivity. }
  destruct (C1_single_cycle_in_progress nothing_to_do quiet_globals
              (after_first_call nothing_to_do quiet_globals) Hreach)
    as [_ [Hiff Hbusy]].
  split; [exact Hreach|]. split.
  - apply Hiff. reflexivity.
  - apply (proj1 (Hbusy eq_refl)).
Defined.

(* ===================================================================== *)
(** * Shutdown *)
(* ===================================================================== *)

Section Shutdown.
Import Lifecycle.

Variable cycle_length : Z -> option Z.
Variable cycle_throws : Z -> bool.




(** Clearing the handle held in [timer] empties a queue that holds
    nothing but that timer. *)
Lemma clear_held_timer : forall (held : option nat) (q : list timer_entry),
  (forall e, In e q -> held = Some (handle e)) ->
  match held with
  | Some h => filter (fun e => negb (Nat.eqb (handle e) h)) q
  | None => q
  end = [].
Proof.
  intros held q H. destruct held as [h|].
  - induction q as [|e q IH]; [reflexivity|]. simpl.
    assert (Hh : handle e = h).
    { assert (He : Some h = Some (handle e)) by (apply H; now left).
      now injection He. }
    rewrite Hh, Nat.eqb_refl. simpl.
    apply IH. intros e' Hin. apply H. now right.
  - destruct q as [|e q]; [reflexivity|].
    specialize (H e (or_introl eq_refl)). discriminate H.
Qed.

(** Before a signal, the timers keep the process in a steady state, in
    which the only timer armed is the one held in [timer], until a cycle
    that throws ends it. *)
Lemma steady_step : forall p q,
  steady p -> loop_step cycle_length cycle_throws p q -> steady q \/ crashed q.
Proof.
  intros p q [Hex [Hsd Hq]] Hstep.
  destruct Hstep as [p e _ Hin _|p c _ Hrun Hset _ _|p c _ Hrun Hset _ _];
    [left|left|right].
  - destruct Hq as [Hq|[h [at_ [Hq [Ht Hr]]]]]; [rewrite Hq in Hin; destruct Hin|].
    rewrite Hq in Hin. destruct Hin as [<-|[]].
    destruct p as [t r sd tm qu f st ex said]. cbn in *. subst.
    unfold fire, with_queue, with_now. cbn -[Nat.eqb]. rewrite Nat.eqb_refl.
    unfold run_callback, begin_cycle. cbn.
    repeat split. now left.
  - destruct Hq as [Hq|[h [at_ [_ [_ Hr]]]]]; [|congruence].
    destruct p as [t r sd tm qu f st ex said]. cbn in *. subst.
    unfold end_cycle, scheduleNextCheck. cbn.
    repeat split. right. eexists _, _. repeat split.
  - destruct Hq as [Hq|[h [at_ [_ [_ Hr]]]]]; [|congruence].
    destruct p as [t r sd tm qu f st ex said]. cbn in *. subst.
    unfold crashed, abort_cycle. cbn. repeat split.
    apply in_or_app. right. now left.
Qed.

Lemma steady_holds_timer : forall p,
  steady p -> forall e, In e (queue p) -> timer p = Some (handle e).
Proof.
  intros p [_ [_ Hq]] e Hin.
  destruct Hq as [Hq|[h [at_ [Hq [Ht _]]]]]; rewrite Hq in Hin.
  - destruct Hin.
  - destruct Hin as [<-|[]]. exact Ht.
Qed.

Variable held : option nat.
Variable first : nat.
Variable deadline : Z.
Variable said : list note.















End Shutdown.

Section GracefulShutdown.
Import Lifecycle.







End GracefulShutdown.

(* ===================================================================== *)
(** * Further properties: resolving the public address *)
(* ===================================================================== *)

Lemma requests_app : forall t1 t2, requests (t1 ++ t2) = requests t1 ++ requests t2.
Proof.
  induction t1 as [|e t1 IH]; intros t2; simpl; [reflexivity|].
  destruct e; simpl; now rewrite IH.
Qed.

Lemma in_requests : forall t r, In r (requests t) <-> In (EvFetch r) t.
Proof.
  induction t as [|e t IH]; intros r; simpl; [tauto|].
  destruct e as [r'|ms|l m]; simpl; rewrite IH; split.
  - intros [->|H]; [now left|now right].
  - intros [H|H]; [inversion H; now left|now right].
  - intros H; now right.
  - intros [H|H]; [discriminate|exact H].
  - intros H; now right.
  - intros [H|H]; [discriminate|exact H].
Qed.

(** The events [getPublicIp] adds to the trace. *)
Lemma getPublicIp_run : forall w s,
  run w getPublicIp s =
    (Returned (resolved_ip (respond w (calls s) ReqPublicIp)),
     mkSt (isRunning s) (S (calls s)) (draws s)
          (trace s ++ EvFetch ReqPublicIp ::
             match resolution_error (respond w (calls s) ReqPublicIp) with
             | Some e => [EvLog Error (MPublicIpError e)]
             | None => []
             end)).
Proof.
  intros w s. unfold getPublicIp. cbn [try_catch run].
  destruct (respond w (calls s) ReqPublicIp) as [why|[[|] code [| |d]]];
    simpl; unfold emit, count_call; simpl; rewrite <- ?app_assoc; reflexivity.
Qed.

(** X1.  [getPublicIp] never throws and sends exactly one request, to the
    echo service.  It returns the [ip] property of the body when the
    answer has a success status and a body that parses to something else
    than [null], logging nothing; in every other case (request rejected,
    error status, body that does not parse, [null] body) it logs the
    error and returns [null]. *)
Theorem X1_getPublicIp_one_request_null_on_failure :
  forall w s,
    exists v s' t,
      run w getPublicIp s = (Returned v, s') /\
      trace s' = trace s ++ t /\
      requests t = [ReqPublicIp] /\
      calls s' = S (calls s) /\
      isRunning s' = isRunning s /\
      (forall code d,
         respond w (calls s) ReqPublicIp = Responded (mkResponse true code (JsonData d)) ->
         v = data_ip d /\ t = [EvFetch ReqPublicIp]) /\
      ((forall code d,
          respond w (calls s) ReqPublicIp <> Responded (mkResponse true code (JsonData d))) ->
       v = VNull /\
       exists e, t = [EvFetch ReqPublicIp; EvLog Error (MPublicIpError e)]).
Proof.
  intros w s. rewrite getPublicIp_run.
  eexists _, _, _. split; [reflexivity|]. cbn [trace calls isRunning].
  split; [reflexivity|].
  destruct (respond w (calls s) ReqPublicIp) as [why|[[|] code [| |d]]] eqn:E;
    simpl; (split; [reflexivity|]); (split; [reflexivity|]);
    (split; [reflexivity|]); split;
    try (intros code' d' H; inversion H; subst; split; reflexivity);
    try (intros _; split; [reflexivity|eexists; reflexivity]).
  intros H. exfalso. apply (H code d). reflexivity.
Qed.

(* ===================================================================== *)
(** * Further properties: what a cycle sends *)
(* ===================================================================== *)

Lemma only_requests_telegram_loop : forall g text retries initialDelayMs timeoutMs left attempt,
  only_requests (fun r => r = telegram_request g text timeoutMs)
    (telegram_loop g text retries initialDelayMs timeoutMs left attempt).
Proof.
  intros g text retries initialDelayMs timeoutMs left.
  induction left as [|left IH]; intros attempt; simpl; [constructor|].
  constructor; [reflexivity|].
  intros [why|[[|] code [| |d]]]; simpl;
    try (constructor; intros j; destruct (Nat.eqb attempt retries);
         repeat constructor; apply IH).
  destruct (truthy (data_ok d)); simpl; [repeat constructor|].
  constructor. intros j. destruct (Nat.eqb attempt retries); repeat constructor.
  apply IH.
Qed.

Lemma only_requests_notify : forall g text,
  only_requests (fun r => r = telegram_request g text 10000) (notify g text).
Proof.
  intros g text. unfold notify, sendTelegramMessage.
  destruct (negb (truthy (TELEGRAM_BOT_TOKEN g)) || negb (truthy (TELEGRAM_CHAT_ID g)));
    [repeat constructor|].
  destruct (printable (TELEGRAM_BOT_TOKEN g)); [|constructor].
  apply only_requests_telegram_loop.
Qed.

Lemma only_requests_updateARecord_reply : forall P res,
  only_requests P (updateARecord_reply res).
Proof.
  intros P [why|[[|] code [| |d]]]; simpl; try constructor.
  destruct (truthy (data_success d)); constructor.
Qed.

Lemma updateARecord_requests : forall g d record newIp oldIp,
  only_requests
    (fun r => r = patch_request d record newIp \/
              r = telegram_request g
                    (mkNotice (name d) oldIp newIp (ttl d) (truthy (proxied d))) 10000)
    (updateARecord g d record newIp oldIp).
Proof.
  intros g d record newIp oldIp. unfold updateARecord.
  apply only_requests_try_catch.
  - apply only_requests_bind.
    + apply only_requests_retry_loop. unfold updateARecord_attempt.
      destruct (printable record); [|constructor].
      constructor; [now left|].
      intros x. apply only_requests_updateARecord_reply.
    + intros [[|]|]; try constructor.
      destruct (printable newIp); [|constructor]. constructor.
      destruct (printable oldIp); [|constructor].
      apply only_requests_bind; [|intros a; constructor].
      eapply only_requests_weaken; [|apply only_requests_notify].
      intros r ->. now right.
  - intros e. repeat constructor.
Qed.

Lemma process_domain_requests : forall g publicIp d,
  only_requests (domain_request g publicIp d) (process_domain g publicIp d).
Proof.
  intros g publicIp d. unfold process_domain.
  apply only_requests_bind.
  - eapply only_requests_weaken; [|apply only_requests_getARecord].
    intros r ->. now left.
  - intros [rec|]; [|constructor].
    destruct (strict_eq (ip rec) publicIp); [repeat constructor|].
    destruct (printable (ip rec) && printable publicIp); [|constructor].
    constructor.
    eapply only_requests_weaken; [|apply updateARecord_requests].
    intros r [->| ->]; right; [left|right]; eexists; reflexivity.
Qed.

Lemma for_each_domain_requests : forall g publicIp ds,
  only_requests (fun r => exists d, In d ds /\ domain_request g publicIp d r)
    (for_each_domain g publicIp ds).
Proof.
  intros g publicIp ds. induction ds as [|d ds IH]; cbn [for_each_domain];
    [constructor|].
  apply only_requests_bind.
  - eapply only_requests_weaken; [|apply process_domain_requests].
    intros r Hr. exists d. split; [now left|exact Hr].
  - intros _. eapply only_requests_weaken; [|exact IH].
    intros r [d' [Hin Hr]]. exists d'. split; [now right|exact Hr].
Qed.

Lemma domain_request_not_public_ip : forall g publicIp d r,
  domain_request g publicIp d r -> r <> ReqPublicIp.
Proof.
  intros g publicIp d r [->|[[id ->]|[old ->]]]; discriminate.
Qed.

(** A cycle, by what the echo service answered: it ends as the loop
    over the domains does, the flag cleared. *)
Lemma checkAndUpdate_run : forall w g s,
  isRunning s = false ->
  run w (checkAndUpdate g) s =
    let s1 := snd (run w getPublicIp (set_running true s)) in
    let publicIp := resolved_ip (respond w (calls s) ReqPublicIp) in
    (if truthy publicIp
     then fst (run w (for_each_domain g publicIp (DOMAINS g)) s1)
     else Returned tt,
     set_running false
       (if truthy publicIp
        then snd (run w (for_each_domain g publicIp (DOMAINS g)) s1)
        else emit (EvLog Error MNoPublicIp) s1)).
Proof.
  intros w g s Hfree. unfold checkAndUpdate.
  rewrite (with_cycle_guard_free w (cycle_body g) s Hfree).
  rewrite cycle_body_run, getPublicIp_run. cbn [calls set_running snd].
  destruct (truthy (resolved_ip (respond w (calls s) ReqPublicIp))); reflexivity.
Qed.

(** A value returned by the retry helper is the value one of its
    attempts returned. *)
Lemma retry_loop_value :
  forall w A (req : request) (reply : FetchResult -> prog A) ctx retries initialDelayMs
         left attempt s v s',
    run w (retry_loop (Fetch req reply) ctx retries initialDelayMs left attempt) s
      = (Returned (Some v), s') ->
    exists n s0, fst (run w (reply (respond w n req)) s0) = Returned v.
Proof.
  intros w A req reply ctx retries initialDelayMs left.
  induction left as [|left IH]; intros attempt s v s' Hrun; [discriminate Hrun|].
  cbn [retry_loop] in Hrun. rewrite run_try_catch, run_bind in Hrun.
  cbn [run] in Hrun.
  destruct (run w (reply (respond w (calls s) req))
              (count_call (emit (EvFetch req) s))) as [[a|e] s1] eqn:E.
  - cbn [run] in Hrun. inversion Hrun; subst.
    exists (calls s), (count_call (emit (EvFetch req) s)). now rewrite E.
  - destruct (Nat.eqb attempt retries); cbn [run] in Hrun;
      [discriminate Hrun|].
    exact (IH _ _ _ _ Hrun).
Qed.

(** A record that [getARecord] returns is the first one of a list the
    provider gave for that domain. *)
Lemma getARecord_found_is_listed : forall w d s rec s1,
  run w (getARecord d) s = (Returned (Some rec), s1) ->
  exists n code body rest,
    respond w n (request_of d) = Responded (mkResponse true code (JsonData body)) /\
    data_result body = ResultArray (DnsRecord (ip rec) (recordId rec) :: rest).
Proof.
  intros w d s rec s1 Hrun. unfold getARecord in Hrun.
  rewrite run_try_catch, run_bind in Hrun.
  unfold retryCloudflareAPI, getARecord_attempt in Hrun. fold (request_of d) in Hrun.
  match type of Hrun with
  | context [run w (retry_loop ?f ?c ?r ?i ?l ?a) s] =>
      destruct (run w (retry_loop f c r i l a) s) as [[[found|]|e] s2] eqn:E
  end; cbn [run] in Hrun; try discriminate Hrun.
  inversion Hrun; subst.
  destruct (retry_loop_value _ _ _ _ _ _ _ _ _ _ _ _ E) as [n [s0 Hn]].
  exists n.
  destruct (respond w n (request_of d)) as [why|[[|] code [| |body]]];
    cbn in Hn; try discriminate Hn.
  destruct (truthy (data_success body)); [|discriminate Hn].
  destruct (data_result body) as [|[|[|content id] rest]|] eqn:Hl;
    try discriminate Hn.
  inversion Hn. exists code, body, rest. split; [reflexivity|exact Hl].
Qed.

Lemma for_each_domain_returns : forall w g publicIp ds s,
  printable publicIp = true ->
  (forall d n code body content id rest,
     In d ds ->
     respond w n (request_of d) = Responded (mkResponse true code (JsonData body)) ->
     data_result body = ResultArray (DnsRecord content id :: rest) ->
     printable content = true) ->
  fst (run w (for_each_domain g publicIp ds) s) = Returned tt.
Proof.
  intros w g publicIp ds. induction ds as [|d ds IH]; intros s Hip Hrec;
    [reflexivity|].
  rewrite for_each_domain_cons.
  assert (Hpd : fst (run w (process_domain g publicIp d) s) = Returned tt).
  { rewrite process_domain_run.
    destruct (getARecord_returns w d s) as [r Hr].
    destruct (run w (getARecord d) s) as [o s1] eqn:E. simpl in Hr. subst o.
    destruct r as [rec|]; [|reflexivity].
    destruct (strict_eq (ip rec) publicIp); [reflexivity|].
    destruct (getARecord_found_is_listed w d s rec s1 E)
      as [n [code [body [rest [Hn Hl]]]]].
    rewrite (Hrec d n code body _ _ rest (or_introl eq_refl) Hn Hl), Hip.
    apply updateARecord_returns. }
  destruct (run w (process_domain g publicIp d) s) as [[[]|e] s1];
    [|discriminate Hpd].
  apply IH; [exact Hip|].
  intros d' n code body content id rest Hin. apply Hrec. now right.
Qed.

(** X2.  The only error that can leave a cycle is the [TypeError] of the
    line that reports a differing record.  Whether the guard is passed
    or not, and whatever the three services answer, [checkAndUpdate]
    returns normally or throws that error; and it returns normally
    whenever the address the echo service gave has a string form and so
    has the value of every record the provider lists first for a
    configured domain. *)
Theorem X2_checkAndUpdate_throws_only_on_opaque_value :
  forall w g s,
    (fst (run w (checkAndUpdate g) s) = Returned tt \/
     fst (run w (checkAndUpdate g) s) = Thrown TypeError) /\
    (printable (resolved_ip (respond w (calls s) ReqPublicIp)) = true ->
     (forall d n code body content id rest,
        In d (DOMAINS g) ->
        respond w n (request_of d) = Responded (mkResponse true code (JsonData body)) ->
        data_result body = ResultArray (DnsRecord content id :: rest) ->
        printable content = true) ->
     fst (run w (checkAndUpdate g) s) = Returned tt).
Proof.
  intros w g s. destruct (isRunning s) eqn:E.
  - unfold checkAndUpdate. rewrite (with_cycle_guard_busy w (cycle_body g) s E).
    split; [now left|reflexivity].
  - rewrite (checkAndUpdate_run w g s E). cbn [fst].
    destruct (truthy (resolved_ip (respond w (calls s) ReqPublicIp)));
      [|split; [now left|reflexivity]].
    split; [apply for_each_domain_settles|].
    intros Hip Hrec. now apply for_each_domain_returns.
Qed.

(** A cycle that finds a record without a string form. *)
Lemma X2_opaque_value_witness :
  fst (run two_stale_records (checkAndUpdate quiet_globals) initial_St) = Returned tt /\
  fst (run (scripted [ip_answer "1.2.3.4"; opaque_record_answer "rec-1"])
         (checkAndUpdate quiet_globals) initial_St) = Thrown TypeError.
Proof.
  split; [|reflexivity].
  apply (proj2 (X2_checkAndUpdate_throws_only_on_opaque_value
                  two_stale_records quiet_globals initial_St)).
  - reflexivity.
  - intros d n code body content id rest _ Hn Hl.
    unfold two_stale_records, scripted in Hn. cbn [respond] in Hn.
    do 5 (destruct n as [|n]; [cbn in Hn; inversion Hn; subst; cbn in Hl;
                               try discriminate Hl; inversion Hl; reflexivity|]).
    destruct n; discriminate Hn.
Defined.

(** X3.  A cycle resolves the public address once: among the requests of
    one invocation that passes the guard, exactly one goes to the echo
    service, and it is the first. *)
Theorem X3_single_resolution_per_cycle :
  forall w g s,
    isRunning s = false ->
    exists t,
      trace (snd (run w (checkAndUpdate g) s)) = trace s ++ t /\
      exists rest,
        requests t = ReqPublicIp :: rest /\ ~ In ReqPublicIp rest.
Proof.
  intros w g s Hfree. rewrite (checkAndUpdate_run w g s Hfree).
  cbn [snd]. rewrite getPublicIp_run. cbn [snd set_running isRunning calls draws trace].
  set (logged := match resolution_error (respond w (calls s) ReqPublicIp) with
                 | Some e => [EvLog Error (MPublicIpError e)]
                 | None => []
                 end).
  assert (Hlogged : requests logged = []).
  { unfold logged. destruct (resolution_error _); reflexivity. }
  set (s1 := mkSt true (S (calls s)) (draws s) (trace s ++ EvFetch ReqPublicIp :: logged)).
  destruct (truthy (resolved_ip (respond w (calls s) ReqPublicIp))).
  - destruct (run_only_requests w _ _
                (for_each_domain g (resolved_ip (respond w (calls s) ReqPublicIp))
                   (DOMAINS g)) s1
                (for_each_domain_requests g _ (DOMAINS g)))
      as [t [Ht [_ Honly]]].
    exists (EvFetch ReqPublicIp :: logged ++ t). split.
    + simpl. rewrite Ht. unfold s1. simpl. rewrite <- app_assoc. reflexivity.
    + exists (requests t). split.
      * simpl. now rewrite requests_app, Hlogged.
      * intros Hin. apply in_requests in Hin.
        destruct (Honly _ Hin) as [d [_ Hd]].
        exact (domain_request_not_public_ip _ _ _ _ Hd eq_refl).
  - exists (EvFetch ReqPublicIp :: logged ++ [EvLog Error MNoPublicIp]). split.
    + simpl. rewrite <- app_assoc. reflexivity.
    + exists []. split; [|intros []].
      simpl. now rewrite requests_app, Hlogged.
Qed.

Lemma X3_single_resolution_witness :
  exists t,
    trace (snd (run two_stale_records (checkAndUpdate quiet_globals) initial_St)) = [] ++ t /\
    exists rest, requests t = ReqPublicIp :: rest /\ ~ In ReqPublicIp rest.
Proof.
  apply (X3_single_resolution_per_cycle two_stale_records quiet_globals initial_St).
  reflexivity.
Defined.

(** X4.  A cycle sends nothing but: the request to the echo service; for
    a configured domain, the listing of its records; an update of a
    configured domain that writes the address resolved in this cycle,
    with the ttl and proxied flag of that domain; and the notification of
    such an update, with the configured credentials. *)
Theorem X4_cycle_requests_are_for_configured_domains :
  forall w g s,
    isRunning s = false ->
    exists t,
      trace (snd (run w (checkAndUpdate g) s)) = trace s ++ t /\
      forall r, In (EvFetch r) t ->
        r = ReqPublicIp \/
        exists d, In d (DOMAINS g) /\
                  domain_request g (resolved_ip (respond w (calls s) ReqPublicIp)) d r.
Proof.
  intros w g s Hfree. rewrite (checkAndUpdate_run w g s Hfree).
  cbn [snd]. rewrite getPublicIp_run. cbn [snd set_running isRunning calls draws trace].
  set (logged := match resolution_error (respond w (calls s) ReqPublicIp) with
                 | Some e => [EvLog Error (MPublicIpError e)]
                 | None => []
                 end).
  assert (Hlogged : forall r, ~ In (EvFetch r) logged).
  { intros r. unfold logged. destruct (resolution_error _); simpl; [|tauto].
    intros [H|[]]. discriminate H. }
  set (s1 := mkSt true (S (calls s)) (draws s) (trace s ++ EvFetch ReqPublicIp :: logged)).
  destruct (truthy (resolved_ip (respond w (calls s) ReqPublicIp))).
  - destruct (run_only_requests w _ _
                (for_each_domain g (resolved_ip (respond w (calls s) ReqPublicIp))
                   (DOMAINS g)) s1
                (for_each_domain_requests g _ (DOMAINS g)))
      as [t [Ht [_ Honly]]].
    exists (EvFetch ReqPublicIp :: logged ++ t). split.
    + simpl. rewrite Ht. unfold s1. simpl. rewrite <- app_assoc. reflexivity.
    + intros r [H|H]; [inversion H; now left|].
      apply in_app_or in H. destruct H as [H|H]; [destruct (Hlogged r H)|].
      right. now apply Honly.
  - exists (EvFetch ReqPublicIp :: logged ++ [EvLog Error MNoPublicIp]). split.
    + simpl. rewrite <- app_assoc. reflexivity.
    + intros r [H|H]; [inversion H; now left|].
      apply in_app_or in H. destruct H as [H|[H|[]]]; [destruct (Hlogged r H)|].
      discriminate H.
Qed.

Lemma X4_cycle_requests_witness :
  exists t,
    trace (snd (run two_stale_records (checkAndUpdate quiet_globals) initial_St)) = [] ++ t /\
    forall r, In (EvFetch r) t ->
      r = ReqPublicIp \/
      exists d, In d (DOMAINS quiet_globals) /\
                domain_request quiet_globals
                  (resolved_ip (respond two_stale_records 0%nat ReqPublicIp)) d r.
Proof.
  apply (X4_cycle_requests_are_for_configured_domains
           two_stale_records quiet_globals initial_St).
  reflexivity.
Defined.

(** X5.  When no public address is resolved (the echo service fails, or
    answers with an [ip] that is missing, [null] or empty), the cycle
    sends no further request: no record is listed or updated and nobody
    is notified; it logs that it skips this round and clears the flag. *)
Theorem X5_no_address_no_domain_touched :
  forall w g s,
    isRunning s = false ->
    truthy (resolved_ip (respond w (calls s) ReqPublicIp)) = false ->
    exists t,
      run w (checkAndUpdate g) s =
        (Returned tt,
         mkSt false (S (calls s)) (draws s)
              (trace s ++ EvFetch ReqPublicIp :: t ++ [EvLog Error MNoPublicIp])) /\
      requests t = [].
Proof.
  intros w g s Hfree Hnone. rewrite (checkAndUpdate_run w g s Hfree).
  cbn zeta. rewrite Hnone, getPublicIp_run.
  cbn [snd set_running isRunning calls draws trace emit].
  exists (match resolution_error (respond w (calls s) ReqPublicIp) with
          | Some e => [EvLog Error (MPublicIpError e)]
          | None => []
          end).
  split.
  - unfold set_running, emit. simpl. rewrite <- app_assoc. reflexivity.
  - destruct (resolution_error _); reflexivity.
Qed.

Lemma X5_no_address_witness :
  exists t,
    run (scripted [ip_answer ""]) (checkAndUpdate quiet_globals) initial_St =
      (Returned tt,
       mkSt false 1 0 ([] ++ EvFetch ReqPublicIp :: t ++ [EvLog Error MNoPublicIp])) /\
    requests t = [].
Proof.
  apply (X5_no_address_no_domain_touched (scripted [ip_answer ""]) quiet_globals initial_St).
  - reflexivity.
  - reflexivity.
Defined.

(* ===================================================================== *)
(** * Further properties: bounds of the retry helper *)
(* ===================================================================== *)


(** Whatever the answers, the loop of the helper makes one request more
    than it sleeps, and sleeps before every attempt but the first. *)
Lemma retry_loop_shape :
  forall w A (req : request) (reply : FetchResult -> prog A) ctx retries initialDelayMs,
  (forall res, exists o t, settles_with (reply res) o t) ->
  forall left attempt s,
    (0 < left)%nat ->
    (attempt + left = S retries)%nat ->
    exists n,
      (n < left)%nat /\
      calls (snd (run w (retry_loop (Fetch req reply) ctx retries initialDelayMs
                          left attempt) s)) = (calls s + S n)%nat /\
      sleeps (trace (snd (run w (retry_loop (Fetch req reply) ctx retries initialDelayMs
                                  left attempt) s)))
        = sleeps (trace s) ++ map (backoff_delay initialDelayMs) (seq attempt n).
Proof.
  intros w A req reply ctx retries initialDelayMs Hsettles.
  induction left as [|left IH]; intros attempt s Hpos Hsum; [lia|].
  simpl. rewrite run_try_catch. simpl. rewrite run_bind.
  destruct (Hsettles (respond w (calls s) req)) as [[v|e] [t Ht]];
    rewrite (run_settles_with w _ Ht).
  - exists 0%nat. simpl. repeat split; try lia.
    rewrite !sleeps_app. simpl. rewrite (settles_with_no_sleep Ht).
    now rewrite !app_nil_r.
  - destruct left as [|left].
    + assert (Hlast : Nat.eqb attempt retries = true) by (apply Nat.eqb_eq; lia).
      rewrite Hlast. exists 0%nat. simpl. repeat split; try lia.
      rewrite !sleeps_app. simpl. rewrite (settles_with_no_sleep Ht).
      now rewrite !app_nil_r.
    + assert (Hlast : Nat.eqb attempt retries = false) by (apply Nat.eqb_neq; lia).
      rewrite Hlast. cbn [run].
      set (s2 := emit _ (emit _ (emit_all t _))).
      destruct (IH (S attempt) s2 ltac:(lia) ltac:(lia)) as [n [Hn [Hc Hs]]].
      exists (S n). split; [lia|]. split.
      * rewrite Hc. unfold s2. simpl. lia.
      * rewrite Hs. unfold s2. simpl. rewrite !sleeps_app. simpl.
        rewrite (settles_with_no_sleep Ht). simpl.
        rewrite !app_nil_r, <- app_assoc. reflexivity.
Qed.



(** X7.  [getARecord], whatever the provider answers: it never throws;
    it sends one, two or three requests, all of them the listing of the
    domain's own A records; and it has slept 0 ms, 1000 ms, or 1000 ms
    then 2000 ms, according to that number. *)
Theorem X7_getARecord_is_bounded :
  forall w d s,
    exists found n t,
      run w (getARecord d) s = (Returned found, snd (run w (getARecord d) s)) /\
      (n < 3)%nat /\
      calls (snd (run w (getARecord d) s)) = (calls s + S n)%nat /\
      trace (snd (run w (getARecord d) s)) = trace s ++ t /\
      (forall r, In r (requests t) -> r = request_of d) /\
      sleeps t = firstn n default_backoff.
Proof.
  intros w d s.
  destruct (getARecord_returns w d s) as [found Hfound].
  destruct (retry_loop_shape w _ (request_of d) (getARecord_reply (name d))
              (CtxGet (name d)) default_retries default_initialDelayMs
              (getARecord_reply_settles (name d)) default_retries 1 s
              ltac:(unfold default_retries; lia) eq_refl)
    as [n [Hn [Hc Hs]]].
  unfold default_retries in Hn.
  destruct (run_only_requests w _ _ (getARecord d) s (only_requests_getARecord d))
    as [t [Ht [_ Honly]]].
  assert (Hshape :
            calls (snd (run w (getARecord d) s)) = (calls s + S n)%nat /\
            sleeps (trace (snd (run w (getARecord d) s)))
              = sleeps (trace s) ++ map (backoff_delay 1000) (seq 1 n)).
  { unfold getARecord, retryCloudflareAPI, getARecord_attempt.
    rewrite run_try_catch, run_bind. fold (request_of d).
    destruct (run w (retry_loop (Fetch (request_of d) (getARecord_reply (name d)))
                       (CtxGet (name d)) default_retries default_initialDelayMs
                       default_retries 1) s)
      as [[r|e] sx]; cbn [snd] in Hc, Hs; cbn [run snd].
    - split; [exact Hc|exact Hs].
    - split; [exact Hc|]. simpl. rewrite sleeps_app, Hs. simpl.
      now rewrite app_nil_r. }
  destruct Hshape as [Hc' Hs'].
  exists found, n, t. split.
  { destruct (run w (getARecord d) s) as [o sx]. simpl in Hfound. now subst o. }
  split; [exact Hn|]. split; [exact Hc'|]. split; [exact Ht|]. split.
  - intros r Hin. apply in_requests in Hin. now apply Honly.
  - rewrite Ht, sleeps_app in Hs'. apply app_inv_head in Hs'. rewrite Hs'.
    destruct n as [|[|[|n]]]; try reflexivity. lia.
Qed.

(* ===================================================================== *)
(** * Further properties: the notifier when it is configured *)
(* ===================================================================== *)

Lemma telegram_reply_cases : forall text res,
  (telegram_accepts res = true /\
   telegram_reply text res = Log Info (MTelegramSent text) (Ret true)) \/
  (telegram_accepts res = false /\ exists e, telegram_reply text res = Throw e).
Proof.
  intros text [why|[[|] code [| |d]]]; simpl; try (right; split; eauto; fail).
  destruct (truthy (data_ok d)); simpl; [left|right]; eauto.
Qed.

Section TelegramLoop.
Variable w : World.
Variable g : Globals.
Variable text : Notice.
Variable retries : nat.
Variable initialDelayMs : Z.
Variable timeoutMs : Z.

(** The loop of the notifier, from an attempt that is still allowed: it
    stops at the first answer that accepts the message, or when the
    attempts are used up; it draws a jitter below 300 for each wait. *)
Lemma telegram_loop_shape : forall left attempt s,
  (attempt + left = retries)%nat ->
  exists b m js s',
    run w (telegram_loop g text retries initialDelayMs timeoutMs (S left) attempt) s
      = (Returned b, s') /\
    (m <= left)%nat /\
    calls s' = (calls s + S m)%nat /\
    isRunning s' = isRunning s /\
    List.length js = m /\
    Forall (fun j => 0 <= j < 300) js /\
    sleeps (trace s') =
      sleeps (trace s)
      ++ map (fun aj => telegram_delay initialDelayMs (fst aj) (snd aj))
             (combine (seq attempt m) js) /\
    (forall i, (i < m)%nat ->
       telegram_accepts (respond w (calls s + i) (telegram_request g text timeoutMs))
       = false) /\
    b = telegram_accepts (respond w (calls s + m) (telegram_request g text timeoutMs)) /\
    (b = false -> m = left).
Proof.
  induction left as [|left IH]; intros attempt s Hsum.
  - cbn [telegram_loop try_catch run]. fold (telegram_request g text timeoutMs).
    destruct (telegram_reply_cases text
                (respond w (calls s) (telegram_request g text timeoutMs)))
      as [[Hacc ->]|[Hacc [e ->]]].
    + exists true, 0%nat, []. eexists. split; [reflexivity|]. simpl.
      repeat split; try lia; try constructor;
        try (rewrite !sleeps_app; simpl; now rewrite !app_nil_r);
        try (rewrite Nat.add_0_r; now rewrite Hacc); try discriminate.
    + cbn [try_catch run].
      assert (Hlast : Nat.eqb attempt retries = true) by (apply Nat.eqb_eq; lia).
      rewrite Hlast. exists false, 0%nat, []. eexists. split; [reflexivity|]. simpl.
      repeat split; try lia; try constructor;
        try (rewrite !sleeps_app; simpl; now rewrite !app_nil_r);
        try (rewrite Nat.add_0_r; now rewrite Hacc); try discriminate.
  - cbn [telegram_loop try_catch run]. fold (telegram_request g text timeoutMs).
    destruct (telegram_reply_cases text
                (respond w (calls s) (telegram_request g text timeoutMs)))
      as [[Hacc ->]|[Hacc [e ->]]].
    + exists true, 0%nat, []. eexists. split; [reflexivity|]. simpl.
      repeat split; try lia; try constructor;
        try (rewrite !sleeps_app; simpl; now rewrite !app_nil_r);
        try (rewrite Nat.add_0_r; now rewrite Hacc); try discriminate.
    + cbn [try_catch run].
      assert (Hlast : Nat.eqb attempt retries = false) by (apply Nat.eqb_neq; lia).
      rewrite Hlast. cbn [run].
      fold (telegram_loop g text retries initialDelayMs timeoutMs (S left) (S attempt)).
      set (j0 := random_below w 300 (count_call (emit (EvFetch (telegram_request g text timeoutMs)) s))).
      set (s2 := emit _ (emit _ (count_draw _))).
      destruct (IH (S attempt) s2 ltac:(lia))
        as [b [m [js [s' [Hrun [Hm [Hc [Hf [Hlen [Hjs [Hsl [Hrefused [Hb Hall]]]]]]]]]]]]].
      assert (Hc2 : calls s2 = S (calls s)) by reflexivity.
      exists b, (S m), (j0 :: js), s'. split; [exact Hrun|].
      split; [lia|]. split; [rewrite Hc, Hc2; lia|]. split; [rewrite Hf; reflexivity|].
      split; [simpl; now rewrite Hlen|]. split.
      { constructor; [|exact Hjs]. unfold j0, random_below.
        apply Z.mod_pos_bound. lia. }
      split.
      { rewrite Hsl. unfold s2. simpl. rewrite !sleeps_app. simpl.
        rewrite !app_nil_r, <- app_assoc. reflexivity. }
      split.
      { intros i Hi. destruct i as [|i]; [now rewrite Nat.add_0_r|].
        replace (calls s + S i)%nat with (calls s2 + i)%nat by (rewrite Hc2; lia).
        apply Hrefused. lia. }
      split.
      { rewrite Hb. rewrite Hc2. f_equal. f_equal. lia. }
      intros Hfalse. rewrite (Hall Hfalse). reflexivity.
Qed.
End TelegramLoop.

(** X8.  The notifier with credentials and a ceiling of at least one
    attempt.  When the bot token has a string form the call never
    throws: it sends between one and [retries] requests; every answer
    before the last request made refused the message; it returns true
    exactly when the last one accepted it, and returns false only after
    [retries] requests.  When the token has none (nothing checks that it
    is a string) the call throws a [TypeError] while it builds the url,
    before the loop, and sends nothing. *)
Theorem X8_notifier_stops_at_first_success :
  forall w g text retries initialDelayMs timeoutMs s,
    truthy (TELEGRAM_BOT_TOKEN g) = true ->
    truthy (TELEGRAM_CHAT_ID g) = true ->
    (0 < retries)%nat ->
    (printable (TELEGRAM_BOT_TOKEN g) = true ->
     exists sent n s',
       run w (sendTelegramMessage g text retries initialDelayMs timeoutMs) s
         = (Returned sent, s') /\
       (1 <= n <= retries)%nat /\
       calls s' = (calls s + n)%nat /\
       (forall i, (i < n - 1)%nat ->
          telegram_accepts (respond w (calls s + i) (telegram_request g text timeoutMs))
          = false) /\
       sent = telegram_accepts
                (respond w (calls s + (n - 1)) (telegram_request g text timeoutMs)) /\
       (sent = false -> n = retries)) /\
    (printable (TELEGRAM_BOT_TOKEN g) = false ->
     run w (sendTelegramMessage g text retries initialDelayMs timeoutMs) s
       = (Thrown TypeError, s)).
Proof.
  intros w g text retries initialDelayMs timeoutMs s Htoken Hchat Hpos.
  unfold sendTelegramMessage. rewrite Htoken, Hchat. cbn [negb orb].
  split; intros Hprint; rewrite Hprint; [|reflexivity].
  destruct retries as [|left]; [lia|].
  destruct (telegram_loop_shape w g text (S left) initialDelayMs timeoutMs left 1 s
              ltac:(lia))
    as [b [m [js [s' [Hrun [Hm [Hc [_ [_ [_ [_ [Hrefused [Hb Hall]]]]]]]]]]]]].
  exists b, (S m), s'. split; [exact Hrun|]. split; [lia|]. split; [exact Hc|].
  replace (S m - 1)%nat with m by lia.
  split; [exact Hrefused|]. split; [exact Hb|].
  intros Hfalse. rewrite (Hall Hfalse). reflexivity.
Qed.

Lemma X8_notifier_witness :
  (exists sent n s',
     run (scripted [server_error; answer (mkData VUndefined VUndefined ResultMissing
                                            (VBool true) VUndefined VUndefined)])
         (sendTelegramMessage (mkGlobals (VStr "bot") (VNum 42) [])
            (mkNotice (VStr "example.com") (VStr "9.9.9.9") (VStr "1.2.3.4") (VNum 60) false)
            5 500 10000)
         initial_St
       = (Returned sent, s') /\
     (1 <= n <= 5)%nat /\
     calls s' = (0 + n)%nat) /\
  run (scripted [])
      (sendTelegramMessage (mkGlobals (VObj false) (VNum 42) [])
         (mkNotice (VStr "example.com") (VStr "9.9.9.9") (VStr "1.2.3.4") (VNum 60) false)
         5 500 10000)
      initial_St
    = (Thrown TypeError, initial_St).
Proof.
  split.
  - destruct (X8_notifier_stops_at_first_success
                (scripted [server_error; answer (mkData VUndefined VUndefined ResultMissing
                                                   (VBool true) VUndefined VUndefined)])
                (mkGlobals (VStr "bot") (VNum 42) [])
                (mkNotice (VStr "example.com") (VStr "9.9.9.9") (VStr "1.2.3.4")
                   (VNum 60) false)
                5 500 10000 initial_St eq_refl eq_refl ltac:(lia))
      as [Hgood _].
    destruct (Hgood eq_refl) as [sent [n [s' [Hrun [Hn [Hc _]]]]]].
    exists sent, n, s'. repeat split; try assumption; lia.
  - apply (proj2 (X8_notifier_stops_at_first_success (scripted [])
                    (mkGlobals (VObj false) (VNum 42) [])
                    (mkNotice (VStr "example.com") (VStr "9.9.9.9") (VStr "1.2.3.4")
                       (VNum 60) false)
                    5 500 10000 initial_St eq_refl eq_refl ltac:(lia))).
    reflexivity.
Defined.



(* ===================================================================== *)
(** * Further properties: updating a record *)
(* ===================================================================== *)

(** X10.  An update whose first request the provider accepts, the
    record id and the two addresses having string forms: exactly one
    update request is sent, carrying the new address with the domain's
    ttl and proxied flag; the success is logged; the notifier is called
    next, with the old and the new address; and whatever the notifier
    does, [updateARecord] returns normally and sends no second update.
    An error thrown by the notifier is caught and logged as an error of
    the update, which has gone through. *)
Theorem X10_accepted_update_is_sent_once :
  forall w g d record newIp oldIp s code body,
    printable record = true ->
    printable newIp = true ->
    printable oldIp = true ->
    respond w (calls s) (patch_request d record newIp)
      = Responded (mkResponse true code (JsonData body)) ->
    truthy (data_success body) = true ->
    let notice := mkNotice (name d) oldIp newIp (ttl d) (truthy (proxied d)) in
    let s1 := mkSt (isRunning s) (S (calls s)) (draws s)
                   (trace s ++ [EvFetch (patch_request d record newIp);
                                EvLog Info (MUpdated (name d) newIp (ttl d) (proxied d))]) in
    let s2 := snd (run w (notify g notice) s1) in
    run w (updateARecord g d record newIp oldIp) s
      = (Returned tt,
         match fst (run w (notify g notice) s1) with
         | Returned _ => s2
         | Thrown e => emit (EvLog Error (MUpdateError (name d) e)) s2
         end) /\
    exists t,
      trace s2 = trace s1 ++ t /\
      forall r, In r (requests t) -> r = telegram_request g notice 10000.
Proof.
  intros w g d record newIp oldIp s code body Hid Hnew Hold Hres Hok notice s1 s2.
  split.
  - unfold updateARecord, retryCloudflareAPI, updateARecord_attempt, default_retries.
    rewrite Hid.
    rewrite run_try_catch, run_bind. cbn [retry_loop].
    rewrite run_try_catch. cbn [bind run]. fold (patch_request d record newIp).
    rewrite Hres. cbn [updateARecord_reply ok payload negb]. rewrite Hok.
    cbn [bind run]. rewrite Hnew. cbn [run]. rewrite Hold. rewrite run_bind.
    fold notice.
    assert (Hs1 : emit (EvLog Info (MUpdated (name d) newIp (ttl d) (proxied d)))
                    (count_call (emit (EvFetch (patch_request d record newIp)) s)) = s1).
    { unfold s1, emit, count_call. simpl. now rewrite <- app_assoc. }
    rewrite Hs1. unfold s2.
    destruct (run w (notify g notice) s1) as [[sent|e] sx]; reflexivity.
  - destruct (run_only_requests w _ _ (notify g notice) s1 (only_requests_notify g notice))
      as [t [Ht [_ Honly]]].
    exists t. split; [exact Ht|].
    intros r Hin. apply in_requests in Hin. now apply Honly.
Qed.

Lemma X10_accepted_update_witness :
  run (scripted [success_answer])
      (updateARecord quiet_globals example_com (VStr "rec-1") (VStr "1.2.3.4") (VStr "9.9.9.9"))
      initial_St
    = (Returned tt,
       mkSt false 1 0
         [EvFetch (patch_request example_com (VStr "rec-1") (VStr "1.2.3.4"));
          EvLog Info (MUpdated (VStr "example.com") (VStr "1.2.3.4")
                        (VNum 60) (VBool false));
          EvLog Warn MTelegramSkipped]).
Proof.
  apply (proj1 (X10_accepted_update_is_sent_once (scripted [success_answer]) quiet_globals
                  example_com (VStr "rec-1") (VStr "1.2.3.4") (VStr "9.9.9.9") initial_St
                  200
                  (mkData VUndefined (VBool true) ResultMissing VUndefined VUndefined VUndefined)
                  eq_refl eq_refl eq_refl eq_refl eq_refl)).
Defined.



(** X20.  An update of a record whose id has no string form sends
    nothing: each of the three attempts throws while it builds the url,
    before the request is made; [updateARecord] sleeps 1000 ms and
    2000 ms between them, logs the error and returns normally, and
    nobody is notified. *)
Theorem X20_update_with_opaque_id_sends_nothing :
  forall w g d record newIp oldIp s,
    printable record = false ->
    run w (updateARecord g d record newIp oldIp) s
      = (Returned tt,
         mkSt (isRunning s) (calls s) (draws s)
           (trace s ++
            [EvLog Warn (MRetrying (CtxUpdate (name d)) 1 3 TypeError 1000);
             EvSleep 1000;
             EvLog Warn (MRetrying (CtxUpdate (name d)) 2 3 TypeError 2000);
             EvSleep 2000;
             EvLog Error (MRetryExhausted (CtxUpdate (name d)) 3 TypeError);
             EvLog Error (MUpdateError (name d) TypeError)])).
Proof.
  intros w g d record newIp oldIp s Hid.
  unfold updateARecord, retryCloudflareAPI, updateARecord_attempt,
         default_retries, default_initialDelayMs.
  rewrite Hid.
  cbn [retry_loop bind try_catch run Nat.eqb].
  unfold emit. cbn [isRunning calls draws trace].
  rewrite <- !app_assoc. reflexivity.
Qed.

Lemma X20_update_with_opaque_id_witness :
  requests
    (trace (snd (run (scripted [success_answer])
                   (updateARecord quiet_globals example_com (VObj false)
                      (VStr "1.2.3.4") (VStr "9.9.9.9"))
                   initial_St)))
    = [].
Proof.
  rewrite (X20_update_with_opaque_id_sends_nothing (scripted [success_answer])
             quiet_globals example_com (VObj false) (VStr "1.2.3.4") (VStr "9.9.9.9")
             initial_St eq_refl).
  reflexivity.
Defined.

(* ===================================================================== *)
(** * Further properties: start-up *)
(* ===================================================================== *)

Lemma inner_events_app : forall l1 l2,
  inner_events (l1 ++ l2) = inner_events l1 ++ inner_events l2.
Proof.
  induction l1 as [|e l1 IH]; intros l2; simpl; [reflexivity|].
  destruct e; simpl; now rewrite IH.
Qed.

Lemma inner_events_from_function : forall t, inner_events (map FromFunction t) = t.
Proof. induction t as [|e t IH]; simpl; [reflexivity|now rewrite IH]. Qed.

Lemma checkAndUpdate_resolves_first : forall w g s,
  isRunning s = false ->
  exists t, trace (snd (run w (checkAndUpdate g) s))
            = trace s ++ EvFetch ReqPublicIp :: t.
Proof.
  intros w g s Hfree. rewrite (checkAndUpdate_run w g s Hfree).
  cbn [snd]. rewrite getPublicIp_run. cbn [snd set_running isRunning calls draws trace].
  destruct (truthy (resolved_ip (respond w (calls s) ReqPublicIp))).
  - match goal with
    | |- context [run w ?p ?s1] =>
        destruct (run_trace_grows w _ p s1) as [t Ht]
    end.
    cbn [trace] in *. rewrite Ht. cbn [trace]. rewrite <- app_assoc.
    eexists. reflexivity.
  - cbn [trace emit]. rewrite <- app_assoc. eexists. reflexivity.
Qed.

Section Startup.
Variable w : World.
Variable g : Globals.

(** One failed resolution made by the start-up loop. *)
Lemma startup_resolution : forall t,
  run w getPublicIp (enter t) =
    (Returned (resolved_ip (respond w (top_calls t) ReqPublicIp)),
     mkSt (top_running t) (S (top_calls t)) (top_draws t)
          (EvFetch ReqPublicIp ::
             match resolution_error (respond w (top_calls t) ReqPublicIp) with
             | Some e => [EvLog Error (MPublicIpError e)]
             | None => []
             end)).
Proof. intros t. rewrite getPublicIp_run. reflexivity. Qed.

Lemma resolution_log_quiet : forall res,
  sleeps match resolution_error res with
         | Some e => [EvLog Error (MPublicIpError e)]
         | None => []
         end = [] /\
  requests match resolution_error res with
           | Some e => [EvLog Error (MPublicIpError e)]
           | None => []
           end = [].
Proof. intros res. destruct (resolution_error res); split; reflexivity. Qed.

(** A failed resolution that is not the last: the loop waits and goes on
    to the next attempt. *)
Lemma startup_loop_retries : forall left attempt t,
  truthy (resolved_ip (respond w (top_calls t) ReqPublicIp)) = false ->
  (attempt < STARTUP_RETRIES)%nat ->
  run_script w (startup_loop g (S left) attempt) t =
  run_script w (startup_loop g left (S attempt))
    (mkTop (top_running t) (S (top_calls t)) (top_draws t)
       (top_log t
        ++ StartupLog Info (LineAttempt attempt STARTUP_RETRIES)
        :: map FromFunction
             (EvFetch ReqPublicIp ::
                match resolution_error (respond w (top_calls t) ReqPublicIp) with
                | Some e => [EvLog Error (MPublicIpError e)]
                | None => []
                end)
        ++ [StartupLog Warn (LineRetryLater (5000 * Z.of_nat attempt));
            FromFunction (EvSleep (5000 * Z.of_nat attempt))])).
Proof.
  intros left attempt t Hfalsy Hlt.
  assert (Hmin : Z.min (5000 * Z.of_nat attempt) 30000 = 5000 * Z.of_nat attempt)
    by (unfold STARTUP_RETRIES in Hlt; lia).
  apply Nat.ltb_lt in Hlt.
  cbn [startup_loop run_script]. rewrite startup_resolution.
  cbn [say_top top_calls top_running top_draws top_log].
  rewrite Hfalsy, Hlt. cbn [run_script]. unfold sleep. cbn [run]. rewrite Hmin.
  f_equal. unfold leave, say_top, enter, emit.
  cbn [isRunning calls draws trace top_running top_calls top_draws top_log map app].
  f_equal. rewrite <- !app_assoc. reflexivity.
Qed.

Lemma after_retry_sleeps : forall (l : list top_event) line1 logged line2 ms,
  sleeps logged = [] ->
  sleeps (inner_events
            (l ++ StartupLog Info line1
               :: map FromFunction (EvFetch ReqPublicIp :: logged)
               ++ [StartupLog Warn line2; FromFunction (EvSleep ms)]))
  = sleeps (inner_events l) ++ [ms].
Proof.
  intros l line1 logged line2 ms Hq.
  rewrite inner_events_app. cbn [inner_events].
  rewrite inner_events_app, inner_events_from_function. cbn [inner_events].
  rewrite !sleeps_app. cbn [sleeps]. rewrite Hq. reflexivity.
Qed.

Lemma after_retry_requests : forall (l : list top_event) line1 logged line2 ms,
  requests logged = [] ->
  requests (inner_events
              (l ++ StartupLog Info line1
                 :: map FromFunction (EvFetch ReqPublicIp :: logged)
                 ++ [StartupLog Warn line2; FromFunction (EvSleep ms)]))
  = requests (inner_events l) ++ [ReqPublicIp].
Proof.
  intros l line1 logged line2 ms Hq.
  rewrite inner_events_app. cbn [inner_events].
  rewrite inner_events_app, inner_events_from_function. cbn [inner_events].
  rewrite !requests_app. cbn [requests]. rewrite Hq. reflexivity.
Qed.


(** The loop up to the first probe that gives an address; [t1] is the
    state the probes leave.  The line that reports the address converts
    it to a string. *)
Lemma startup_loop_first_address : forall j left attempt t,
  (j < left)%nat ->
  (attempt + left = S STARTUP_RETRIES)%nat ->
  (forall i, (i < j)%nat ->
     truthy (resolved_ip (respond w (top_calls t + i) ReqPublicIp)) = false) ->
  truthy (resolved_ip (respond w (top_calls t + j) ReqPublicIp)) = true ->
  exists t1,
    run_script w (startup_loop g left attempt) t =
      (if printable (resolved_ip (respond w (top_calls t + j) ReqPublicIp))
       then run_script w (AwaitUnit (checkAndUpdate g) (Done true))
              (say_top Info
                 (LineNetworkReady (resolved_ip (respond w (top_calls t + j) ReqPublicIp)))
                 t1)
       else (Thrown TypeError, t1)) /\
    top_calls t1 = (top_calls t + S j)%nat /\
    top_running t1 = top_running t /\
    sleeps (inner_events (top_log t1)) =
      sleeps (inner_events (top_log t))
      ++ map (fun a => 5000 * Z.of_nat a) (seq attempt j) /\
    requests (inner_events (top_log t1)) =
      requests (inner_events (top_log t)) ++ repeat ReqPublicIp (S j).
Proof.
  induction j as [|j IH]; intros left attempt t Hj Hsum Hfail Hok.
  - destruct left as [|left]; [lia|].
    cbn [startup_loop run_script]. rewrite startup_resolution.
    cbn [say_top top_calls top_running top_draws top_log].
    rewrite Nat.add_0_r in Hok. rewrite Nat.add_0_r. rewrite Hok.
    destruct (resolution_log_quiet (respond w (top_calls t) ReqPublicIp)) as [Hq1 Hq2].
    eexists. split.
    + destruct (printable (resolved_ip (respond w (top_calls t) ReqPublicIp)));
        cbn [run_script]; reflexivity.
    + unfold leave, say_top, enter.
      cbn [isRunning calls draws trace top_running top_calls top_draws top_log].
      rewrite !inner_events_app, inner_events_from_function.
      cbn [inner_events]. rewrite !sleeps_app, !requests_app.
      cbn [sleeps requests seq map repeat]. rewrite Hq1, Hq2.
      rewrite !app_nil_r. repeat split; lia.
  - destruct left as [|left]; [lia|].
    pose proof (Hfail 0%nat ltac:(lia)) as H0. rewrite Nat.add_0_r in H0.
    destruct (resolution_log_quiet (respond w (top_calls t) ReqPublicIp)) as [Hq1 Hq2].
    unfold STARTUP_RETRIES in Hsum.
    rewrite (startup_loop_retries left attempt t H0)
      by (unfold STARTUP_RETRIES; lia).
    match goal with
    | |- context [run_script w _ ?t0] => set (t2 := t0)
    end.
    destruct (IH left (S attempt) t2) as [t1 [Hrun [Hcalls [Hflag [Hsl Hreq]]]]].
    + lia.
    + unfold STARTUP_RETRIES. lia.
    + intros i Hi. unfold t2. cbn [top_calls].
      replace (S (top_calls t) + i)%nat with (top_calls t + S i)%nat by lia.
      apply Hfail. lia.
    + unfold t2. cbn [top_calls].
      replace (S (top_calls t) + j)%nat with (top_calls t + S j)%nat by lia.
      exact Hok.
    + exists t1. split.
      * rewrite Hrun. unfold t2. cbn [top_calls].
        replace (S (top_calls t) + j)%nat with (top_calls t + S j)%nat by lia.
        reflexivity.
      * split; [rewrite Hcalls; unfold t2; cbn [top_calls]; lia|].
        split; [rewrite Hflag; reflexivity|]. split.
        -- rewrite Hsl. unfold t2. cbn [top_log].
           rewrite (after_retry_sleeps _ _ _ _ _ Hq1), <- app_assoc. reflexivity.
        -- rewrite Hreq. unfold t2. cbn [top_log].
           rewrite (after_retry_requests _ _ _ _ _ Hq2), <- app_assoc. reflexivity.
Qed.

(** The wait that precedes the loop. *)
Lemma startupWithRetry_run : forall t,
  run_script w (startupWithRetry g) t =
  run_script w (startup_loop g STARTUP_RETRIES 1)
    (mkTop (top_running t) (top_calls t) (top_draws t)
       (top_log t ++ [StartupLog Info (LineWaitNetwork STARTUP_DELAY_SECONDS);
                      FromFunction (EvSleep 60000)])).
Proof.
  intros t. unfold startupWithRetry. cbn [run_script]. unfold sleep. cbn [run].
  f_equal. unfold leave, say_top, enter, emit.
  cbn [isRunning calls draws trace top_running top_calls top_draws top_log map app].
  f_equal. rewrite <- app_assoc. reflexivity.
Qed.


(** X13. Start-up probes the address, then runs one cycle.  When the
    first [j] resolutions fail ([j] below five) and the next one gives an
    address that has a string form, [startupWithRetry] makes exactly one
    call of [checkAndUpdate], from the state [t1] the probes have left,
    and ends as that call does: it returns true when the cycle returns,
    and lets the cycle's error through when it throws.  Before that call
    it has sent [j + 1] requests, all to the echo service, and has
    waited 60 s and then 5, 10, ... s, one wait for each failed probe.
    The address found by the probe is not handed to the cycle: when no
    cycle was running, the call of [checkAndUpdate] starts with a
    resolution of its own. *)
Theorem X13_startup_probes_then_runs_one_cycle : forall j t,
  (j < 5)%nat ->
  (forall i, (i < j)%nat ->
     truthy (resolved_ip (respond w (top_calls t + i) ReqPublicIp)) = false) ->
  truthy (resolved_ip (respond w (top_calls t + j) ReqPublicIp)) = true ->
  printable (resolved_ip (respond w (top_calls t + j) ReqPublicIp)) = true ->
  exists t1,
    run_script w (startupWithRetry g) t =
      (match fst (run w (checkAndUpdate g) (enter t1)) with
       | Returned _ => Returned true
       | Thrown e => Thrown e
       end,
       leave t1 (snd (run w (checkAndUpdate g) (enter t1)))) /\
    top_calls t1 = (top_calls t + S j)%nat /\
    top_running t1 = top_running t /\
    sleeps (inner_events (top_log t1)) =
      sleeps (inner_events (top_log t))
      ++ 60000 :: map (fun a => 5000 * Z.of_nat a) (seq 1 j) /\
    requests (inner_events (top_log t1)) =
      requests (inner_events (top_log t)) ++ repeat ReqPublicIp (S j) /\
    (top_running t = false ->
     exists rest,
       trace (snd (run w (checkAndUpdate g) (enter t1)))
       = EvFetch ReqPublicIp :: rest).
Proof.
  intros j t Hj Hfail Hok Hprint. rewrite startupWithRetry_run.
  match goal with
  | |- context [run_script w _ ?t0] => set (t0' := t0)
  end.
  destruct (startup_loop_first_address j STARTUP_RETRIES 1 t0' Hj eq_refl)
    as [t1 [Hrun [Hcalls [Hflag [Hsl Hreq]]]]].
  { intros i Hi. unfold t0'. cbn [top_calls]. apply Hfail. exact Hi. }
  { unfold t0'. cbn [top_calls]. exact Hok. }
  unfold t0' in Hrun at 2 3. cbn [top_calls] in Hrun. rewrite Hprint in Hrun.
  cbn [run_script] in Hrun.
  set (t1' := say_top Info
                (LineNetworkReady (resolved_ip (respond w (top_calls t + j) ReqPublicIp)))
                t1) in *.
  exists t1'. split.
  { rewrite Hrun.
    destruct (run w (checkAndUpdate g) (enter t1')) as [[[]|e] sx]; reflexivity. }
  split; [unfold t1'; cbn [say_top top_calls]; rewrite Hcalls; reflexivity|].
  split; [unfold t1'; cbn [say_top top_running]; rewrite Hflag; reflexivity|].
  split; [|split].
  - unfold t1'. cbn [say_top top_log].
    rewrite inner_events_app. cbn [inner_events]. rewrite app_nil_r.
    rewrite Hsl. unfold t0'. cbn [top_log].
    rewrite inner_events_app, sleeps_app, <- app_assoc. reflexivity.
  - unfold t1'. cbn [say_top top_log].
    rewrite inner_events_app. cbn [inner_events]. rewrite app_nil_r.
    rewrite Hreq. unfold t0'. cbn [top_log].
    rewrite inner_events_app, requests_app. cbn [inner_events requests].
    rewrite app_nil_r. reflexivity.
  - intros Hfree.
    destruct (checkAndUpdate_resolves_first w g (enter t1')) as [rest Hrest].
    + unfold enter, t1'. cbn [isRunning say_top top_running].
      rewrite Hflag. unfold t0'. exact Hfree.
    + exists rest. rewrite Hrest. reflexivity.
Qed.

(** X18. Start-up rejects on an address without a string form.  When
    the first [j] resolutions fail ([j] below five) and the next one
    gives a truthy value that cannot be converted to a string,
    [startupWithRetry] throws a [TypeError] at the line that reports the
    address: no cycle is run, and all it has sent are the [j + 1]
    requests to the echo service, after the same waits. *)
Theorem X18_startup_rejects_on_opaque_address : forall j t,
  (j < 5)%nat ->
  (forall i, (i < j)%nat ->
     truthy (resolved_ip (respond w (top_calls t + i) ReqPublicIp)) = false) ->
  truthy (resolved_ip (respond w (top_calls t + j) ReqPublicIp)) = true ->
  printable (resolved_ip (respond w (top_calls t + j) ReqPublicIp)) = false ->
  exists t1,
    run_script w (startupWithRetry g) t = (Thrown TypeError, t1) /\
    top_calls t1 = (top_calls t + S j)%nat /\
    top_running t1 = top_running t /\
    sleeps (inner_events (top_log t1)) =
      sleeps (inner_events (top_log t))
      ++ 60000 :: map (fun a => 5000 * Z.of_nat a) (seq 1 j) /\
    requests (inner_events (top_log t1)) =
      requests (inner_events (top_log t)) ++ repeat ReqPublicIp (S j).
Proof.
  intros j t Hj Hfail Hok Hprint. rewrite startupWithRetry_run.
  match goal with
  | |- context [run_script w _ ?t0] => set (t0' := t0)
  end.
  destruct (startup_loop_first_address j STARTUP_RETRIES 1 t0' Hj eq_refl)
    as [t1 [Hrun [Hcalls [Hflag [Hsl Hreq]]]]].
  { intros i Hi. unfold t0'. cbn [top_calls]. apply Hfail. exact Hi. }
  { unfold t0'. cbn [top_calls]. exact Hok. }
  unfold t0' in Hrun at 2 3. cbn [top_calls] in Hrun. rewrite Hprint in Hrun.
  exists t1. split; [exact Hrun|].
  split; [rewrite Hcalls; reflexivity|].
  split; [rewrite Hflag; reflexivity|].
  split.
  - rewrite Hsl. unfold t0'. cbn [top_log].
    rewrite inner_events_app, sleeps_app, <- app_assoc. reflexivity.
  - rewrite Hreq. unfold t0'. cbn [top_log].
    rewrite inner_events_app, requests_app. cbn [inner_events requests].
    rewrite app_nil_r. reflexivity.
Qed.

End Startup.


(** Start-up against a network that comes up at the third probe. *)
Lemma X13_startup_probes_witness :
  exists t1,
    fst (run_script (scripted [server_error; server_error; ip_answer "1.2.3.4"])
           (startupWithRetry quiet_globals) (mkTop false 0 0 []))
      = Returned true /\
    top_calls t1 = 3%nat /\
    sleeps (inner_events (top_log t1)) = [60000; 5000; 10000].
Proof.
  destruct (X13_startup_probes_then_runs_one_cycle
              (scripted [server_error; server_error; ip_answer "1.2.3.4"])
              quiet_globals 2 (mkTop false 0 0 []))
    as [t1 [_ [Hcalls [_ [Hsl _]]]]].
  - lia.
  - intros i Hi. destruct i as [|[|i]]; try reflexivity; lia.
  - reflexivity.
  - reflexivity.
  - exists t1. split; [reflexivity|]. split; [exact Hcalls|exact Hsl].
Defined.

(** Start-up against an echo service that answers, at the second probe,
    with an address that has no string form. *)
Lemma X18_startup_rejects_witness :
  exists t1,
    run_script (scripted [server_error; opaque_ip_answer])
      (startupWithRetry quiet_globals) (mkTop false 0 0 [])
      = (Thrown TypeError, t1) /\
    top_calls t1 = 2%nat /\
    requests (inner_events (top_log t1)) = [ReqPublicIp; ReqPublicIp].
Proof.
  destruct (X18_startup_rejects_on_opaque_address
              (scripted [server_error; opaque_ip_answer])
              quiet_globals 1 (mkTop false 0 0 []))
    as [t1 [Hrun [Hcalls [_ [_ Hreq]]]]].
  - lia.
  - intros i Hi. destruct i as [|i]; [reflexivity|lia].
  - reflexivity.
  - reflexivity.
  - exists t1. split; [exact Hrun|]. split; [exact Hcalls|exact Hreq].
Defined.

(* ===================================================================== *)
(** * Further properties: the configuration the script runs with *)
(* ===================================================================== *)

Lemma check_domain_sound : forall index d,
  check_domain index d = Some [] ->
  truthy (name d) = true /\ truthy (zoneId d) = true /\
  usable_credential (apiToken d).
Proof.
  intros index d. unfold check_domain, usable_credential, trims_to_empty.
  destruct (printable (js_or (name d) (VNum (Z.of_nat index + 1))));
    destruct (truthy (name d)); destruct (truthy (zoneId d));
    destruct (truthy (apiToken d)); try discriminate;
    destruct (apiToken d) as [| | | |s|]; try discriminate;
    destruct (all_white s) eqn:Hs; try discriminate;
    intros _; repeat split; exists s; (split; [reflexivity|exact Hs]).
Qed.

Lemma check_domains_sound : forall ds index,
  check_domains index ds = Some [] ->
  forall d, In d ds ->
    truthy (name d) = true /\ truthy (zoneId d) = true /\
    usable_credential (apiToken d).
Proof.
  induction ds as [|x ds IH]; intros index H d Hin; [destruct Hin|].
  cbn [check_domains] in H.
  destruct (check_domain index x) as [e|] eqn:Ex; [|discriminate].
  destruct (check_domains (S index) ds) as [er|] eqn:Er; [|discriminate].
  inversion H as [Happ]. apply app_eq_nil in Happ. destruct Happ as [-> ->].
  destruct Hin as [<-|Hin].
  - exact (check_domain_sound index x Ex).
  - exact (IH (S index) Er d Hin).
Qed.

Lemma validateConfig_sound : forall g notes,
  validateConfig g = Proceed notes ->
  DOMAINS g <> [] /\
  check_domains 0 (DOMAINS g) = Some [] /\
  forallb summary_line_ok (DOMAINS g) = true.
Proof.
  intros g notes. unfold validateConfig.
  destruct (check_domains 0 (DOMAINS g)) as [errs|]; [|discriminate].
  destruct (DOMAINS g) as [|d ds] eqn:Ed; [discriminate|].
  cbn [app]. destruct errs as [|e errs]; [|discriminate].
  destruct (forallb summary_line_ok (d :: ds)); [|discriminate].
  intros _. repeat split. discriminate.
Qed.

Lemma boot_loads : forall f g notes,
  boot f = Proceed (g, notes) ->
  exists c, f = FileParsed c /\ loadConfig f = Proceed g /\
            validateConfig g = Proceed notes.
Proof.
  intros f g notes. unfold boot.
  destruct (loadConfig f) as [code| |g0] eqn:El; try discriminate.
  destruct (validateConfig g0) as [code| |n0] eqn:Ev; try discriminate.
  intros H. inversion H; subst.
  destruct f as [| | |c]; try discriminate El.
  exists c. repeat split; assumption.
Qed.

Lemma load_domain_fills_ttl_and_proxied : forall df d,
  ttl (load_domain df d) <> VUndefined /\
  proxied (load_domain df d) <> VUndefined.
Proof.
  intros df d. unfold load_domain, defaultTtl, defaultProxied, js_or. cbn [ttl proxied].
  split.
  - destruct (ttl d); try discriminate.
    destruct (truthy (defaults_ttl df)) eqn:E; [|discriminate].
    intros H. rewrite H in E. discriminate E.
  - destruct (proxied d); try discriminate.
    destruct (truthy (defaults_proxied df)) eqn:E; [|discriminate].
    intros H. rewrite H in E. discriminate E.
Qed.

(** X14. What every domain is known to have once start-up goes on.
    When [loadConfig] and [validateConfig] let the script reach its
    start-up phase, [DOMAINS] is not empty and each of its elements has
    a truthy name, a zone id that is a non-empty string, a credential
    that is a string not made of white space only, and a ttl and a
    proxied setting that are not undefined; and its name, ttl and
    proxied setting have string forms.  The functions that build the
    provider's requests and the log lines rely on it. *)
Theorem X14_accepted_domains_are_complete : forall f g notes,
  boot f = Proceed (g, notes) ->
  DOMAINS g <> [] /\
  forall d, In d (DOMAINS g) ->
    truthy (name d) = true /\
    (exists z, zoneId d = VStr z /\ z <> ""%string) /\
    usable_credential (apiToken d) /\
    ttl d <> VUndefined /\
    proxied d <> VUndefined /\
    printable (name d) = true /\
    printable (ttl d) = true /\
    printable (proxied d) = true.
Proof.
  intros f g notes Hboot.
  destruct (boot_loads f g notes Hboot) as [c [-> [Hload Hval]]].
  destruct (validateConfig_sound g notes Hval) as [Hne [Hchk Hsum]].
  split; [exact Hne|]. intros d Hin.
  destruct (check_domains_sound (DOMAINS g) 0%nat Hchk d Hin) as [Hn [Hz Hc]].
  rewrite forallb_forall in Hsum. specialize (Hsum d Hin).
  unfold summary_line_ok in Hsum.
  apply andb_prop in Hsum. destruct Hsum as [Hsum Hpp].
  apply andb_prop in Hsum. destruct Hsum as [Hsum Hpt].
  apply andb_prop in Hsum. destruct Hsum as [Hsum Hs].
  apply andb_prop in Hsum. destruct Hsum as [_ Hpn].
  split; [exact Hn|]. split.
  - destruct (zoneId d) as [| | | |z|]; try discriminate Hs.
    exists z. split; [reflexivity|]. intros ->. discriminate Hz.
  - split; [exact Hc|].
    assert (Hfill : ttl d <> VUndefined /\ proxied d <> VUndefined).
    { rewrite (loadConfig_domains c g Hload) in Hin.
      apply in_map_iff in Hin. destruct Hin as [d0 [<- _]].
      apply load_domain_fills_ttl_and_proxied. }
    destruct Hfill as [Hft Hfp]. repeat split; assumption.
Qed.

(** A file with a complete entry, a blank one and one that relies on the
    defaults is accepted, and what is kept is complete. *)
Lemma X14_accepted_domains_witness :
  exists g notes,
    boot mixed_entries_file = Proceed (g, notes) /\
    List.length (DOMAINS g) = 2%nat /\
    forall d, In d (DOMAINS g) -> usable_credential (apiToken d).
Proof.
  eexists _, _. split; [reflexivity|]. split; [reflexivity|].
  intros d Hin.
  destruct (X14_accepted_domains_are_complete mixed_entries_file _ _ eq_refl)
    as [_ Hall].
  destruct (Hall d Hin) as [_ [_ [Hc _]]]. exact Hc.
Defined.

Lemma validateConfig_reads_domains_only : forall g g',
  DOMAINS g' = DOMAINS g ->
  exit_status (validateConfig g') = exit_status (validateConfig g) /\
  forall notes, validateConfig g = Proceed notes ->
    exists notes', validateConfig g' = Proceed notes'.
Proof.
  intros g g' Hd. unfold validateConfig. rewrite Hd.
  destruct (check_domains 0 (DOMAINS g)) as [errs|]; [|split; [reflexivity|discriminate]].
  destruct (match DOMAINS g with [] => [NoDomains] | _ :: _ => [] end ++ errs);
    [|split; [reflexivity|discriminate]].
  destruct (forallb summary_line_ok (DOMAINS g)); [|split; [reflexivity|discriminate]].
  split; [reflexivity|]. intros notes _. eexists. reflexivity.
Qed.

(** X15. The notification settings are optional.  Whatever the
    [telegram] section of the configuration holds, and whether it is
    there at all, start-up ends with the same exit status or goes on
    with the same [DOMAINS]: the section has no part in the decision to
    run, nor in what is watched. *)
Theorem X15_telegram_section_is_optional : forall c tg,
  exit_status (boot (FileParsed (with_telegram tg c)))
  = exit_status (boot (FileParsed c)) /\
  forall g notes,
    boot (FileParsed c) = Proceed (g, notes) ->
    exists g' notes',
      boot (FileParsed (with_telegram tg c)) = Proceed (g', notes') /\
      DOMAINS g' = DOMAINS g.
Proof.
  intros c tg. unfold boot, loadConfig, with_telegram. cbn [telegram defaults domains].
  destruct (domains c) as [l|]; [destruct (filter_entries l) as [kept|]|];
    try (split; [reflexivity|discriminate]).
  match goal with
  | |- exit_status match validateConfig ?x with _ => _ end
       = exit_status match validateConfig ?y with _ => _ end /\ _ =>
      destruct (validateConfig_reads_domains_only y x eq_refl) as [Hs Hp];
      destruct (validateConfig x) as [a| |n] eqn:Ex;
      destruct (validateConfig y) as [b| |m] eqn:Ey
  end; cbn [exit_status] in *;
    try (split; [exact Hs|discriminate]);
    try (split; [reflexivity|discriminate]);
    try (exfalso; destruct (Hp _ eq_refl) as [n' Hn]; discriminate Hn);
    try discriminate Hs.
  split; [reflexivity|].
  intros g notes H. inversion H; subst. eexists _, _. split; reflexivity.
Qed.

(* ===================================================================== *)
(** * Further properties: the periodic check *)
(* ===================================================================== *)

Section PeriodicCheck.
Import Lifecycle.

Variable cycle_length : Z -> option Z.
Variable cycle_throws : Z -> bool.

Lemma paced_step : forall p q,
  paced p -> (queue p = [] -> isRunning p = true) ->
  loop_step cycle_length cycle_throws p q ->
  (paced q /\ (queue q = [] -> isRunning q = true)) \/
  (crashed q /\ exists c, cycle_throws c = true).
Proof.
  intros p q [Hst [Hdue Hquiet]] Hbusy Hstep.
  pose proof (steady_step cycle_length cycle_throws p q Hst Hstep) as Hst'.
  destruct Hst as [Hex [Hsd Hq]].
  destruct Hstep as [p e _ Hin _|p c _ Hrun Hset _ _|p c _ Hrun Hset _ Hfate].
  - left. destruct Hst' as [Hst'|[Hcr _]].
    2:{ exfalso. destruct Hq as [Hq|[h [at_ [Hq [Ht Hr]]]]];
          [rewrite Hq in Hin; destruct Hin|].
        rewrite Hq in Hin. destruct Hin as [<-|[]].
        destruct p as [t r sd tm qu f st ex said]. cbn in *. subst.
        unfold fire, with_queue, with_now, run_callback, begin_cycle in Hcr.
        cbn in Hcr. discriminate Hcr. }
    destruct Hq as [Hq|[h [at_ [Hq [Ht Hr]]]]]; [rewrite Hq in Hin; destruct Hin|].
    rewrite Hq in Hin. destruct Hin as [<-|[]].
    destruct p as [t r sd tm qu f st ex said]. cbn in *. subst.
    split; [split; [exact Hst'|]|].
    + unfold fire, with_queue, with_now. cbn -[Nat.eqb]. rewrite Nat.eqb_refl.
      unfold run_callback, begin_cycle. cbn. split; [intros e []|exact Hquiet].
    + unfold fire, with_queue, with_now. cbn -[Nat.eqb]. rewrite Nat.eqb_refl.
      unfold run_callback, begin_cycle. cbn. reflexivity.
  - left. destruct Hq as [Hq|[h [at_ [_ [_ Hr]]]]]; [|congruence].
    destruct Hst' as [Hst'|[Hcr _]].
    2:{ exfalso. destruct p as [t r sd tm qu f st ex said]. cbn in *. subst.
        unfold end_cycle, scheduleNextCheck in Hcr. cbn in Hcr. discriminate Hcr. }
    destruct p as [t r sd tm qu f st ex said]. cbn in *. subst.
    split; [split; [exact Hst'|]|].
    + unfold end_cycle, scheduleNextCheck. cbn. split; [|exact Hquiet].
      intros e [<-|[]]. reflexivity.
    + unfold end_cycle, scheduleNextCheck. cbn. discriminate.
  - right. split; [|exists c; exact Hfate].
    destruct Hst' as [[Hex' _]|Hcr]; [|exact Hcr].
    exfalso. destruct p as [t r sd tm qu f st ex said]. cbn in *. discriminate Hex'.
Qed.

Lemma paced_steps : forall p q,
  paced p -> (queue p = [] -> isRunning p = true) ->
  loop_steps cycle_length cycle_throws p q ->
  (paced q /\ (queue q = [] -> isRunning q = true)) \/
  (crashed q /\ exists c, cycle_throws c = true).
Proof.
  intros p q Hp Hb Hsteps. induction Hsteps as [p|p q r _ IH Hstep].
  - left. split; assumption.
  - destruct (IH Hp Hb) as [[Hq Hqb]|[[Hex _] _]].
    + exact (paced_step q r Hq Hqb Hstep).
    + exfalso. assert (Hnone : exit_code q = None) by (destruct Hstep; assumption).
      rewrite Hnone in Hex. discriminate Hex.
Qed.

Lemma scheduleNextCheck_paced : forall p,
  exit_code p = None -> isShuttingDown p = false -> isRunning p = false ->
  queue p = [] -> ~ In NoteCycleBusy (notes p) ->
  paced (scheduleNextCheck p) /\
  (queue (scheduleNextCheck p) = [] -> isRunning (scheduleNextCheck p) = true).
Proof.
  intros [t r sd tm qu f st ex said] Hex Hsd Hr Hq Hquiet. cbn in *. subst.
  unfold scheduleNextCheck. cbn. split; [|discriminate].
  split; [|split; [|exact Hquiet]].
  - repeat split. right. eexists _, _. repeat split.
  - intros e [<-|[]]. reflexivity.
Qed.

(** X16. Checks are paced by the end of the previous cycle, until a
    cycle throws.  From the call of [scheduleNextCheck] that follows
    start-up, and as long as no signal arrives, the process is in one of
    three states.  Either a cycle is running and no check is scheduled;
    or no cycle is running and exactly one check is scheduled, its
    handle held in [timer], due one interval (60 s) after the instant at
    which the last cycle ended; in both, no tick has found a cycle
    running.  Or a cycle has thrown: the callback that awaited it never
    came to [scheduleNextCheck], nothing is scheduled, and the process
    has ended with status 1.  The third state is reached only through a
    cycle that throws. *)
Theorem X16_checks_are_paced_by_cycle_end : forall p q,
  exit_code p = None -> isShuttingDown p = false -> isRunning p = false ->
  queue p = [] -> ~ In NoteCycleBusy (notes p) ->
  loop_steps cycle_length cycle_throws (scheduleNextCheck p) q ->
  ((exit_code q = None /\
    isShuttingDown q = false /\
    ~ In NoteCycleBusy (notes q) /\
    ((isRunning q = true /\ queue q = []) \/
     (isRunning q = false /\
      exists h, queue q = [mkTimer h (now q + 60000) None NextCheck] /\
                timer q = Some h))) \/
   (exit_code q = Some 1 /\
    isRunning q = false /\
    queue q = [] /\
    In NoteUnhandledRejection (notes q))) /\
  ((forall c, cycle_throws c = false) -> exit_code q = None).
Proof.
  intros p q Hex Hsd Hr Hq Hquiet Hsteps.
  destruct (scheduleNextCheck_paced p Hex Hsd Hr Hq Hquiet) as [Hp Hb].
  destruct (paced_steps _ q Hp Hb Hsteps)
    as [[[[Hex' [Hsd' Hq']] [Hdue Hquiet']] Hb']|[Hcr [c Hc]]].
  - split; [left|intros _; exact Hex'].
    split; [exact Hex'|]. split; [exact Hsd'|]. split; [exact Hquiet'|].
    destruct Hq' as [Hq'|[h [at_ [Hq' [Ht Hr']]]]].
    + left. split; [exact (Hb' Hq')|exact Hq'].
    + right. split; [exact Hr'|]. exists h. split; [|exact Ht].
      rewrite Hq'. rewrite Hq' in Hdue.
      specialize (Hdue _ (or_introl eq_refl)). cbn in Hdue. rewrite Hdue.
      reflexivity.
  - split; [right; exact Hcr|].
    intros Hnever. rewrite Hnever in Hc. discriminate Hc.
Qed.

Lemma rearm_actions : forall e q x,
  In x (rearm e q) -> exists y, In y q /\ action x = action y.
Proof.
  intros e q x. induction q as [|y q IH]; [intros []|].
  cbn [rearm]. destruct (Nat.eqb (handle y) (handle e)).
  - destruct (every e) as [d|].
    + intros [<-|Hin].
      * exists y. split; [now left|reflexivity].
      * exists x. split; [now right|reflexivity].
    + intros Hin. exists x. split; [now right|reflexivity].
  - intros [<-|Hin].
    + exists y. split; [now left|reflexivity].
    + destruct (IH Hin) as [z [Hz Ha]]. exists z. split; [now right|exact Ha].
Qed.

Lemma winding_down_step : forall p q,
  winding_down p ->
  loop_step cycle_length cycle_throws p q ->
  winding_down q /\
  (isRunning q = true -> isRunning p = true /\ settles q = settles p).
Proof.
  intros p q [Hsd Hq] Hstep.
  destruct Hstep as [p e _ Hin _|p c _ Hrun Hset _ _|p c _ Hrun Hset _ _].
  - pose proof (Hq e Hin) as Hact.
    assert (Hre : forall x, In x (rearm e (queue p)) -> action x <> NextCheck).
    { intros x Hx. destruct (rearm_actions e (queue p) x Hx) as [y [Hy ->]].
      exact (Hq y Hy). }
    destruct p as [t r sd tm qu f st ex said]. cbn [isShuttingDown queue] in *. subst sd.
    unfold fire, run_callback, with_queue, with_now.
    cbn [queue isRunning isShuttingDown timer fresh settles exit_code notes now].
    destruct (action e); [congruence| |].
    + destruct r;
        cbn [negb process_exit say clearInterval clearTimeout with_queue
             queue isRunning isShuttingDown timer fresh settles exit_code notes now].
      * split; [split; [reflexivity|exact Hre]|]. intros _. split; reflexivity.
      * split; [split; [reflexivity|]|discriminate].
        intros x Hx. apply filter_In in Hx. destruct Hx as [Hx _]. exact (Hre x Hx).
    + unfold process_exit, say.
      cbn [queue isRunning isShuttingDown timer fresh settles exit_code notes now].
      split; [split; [reflexivity|exact Hre]|]. intros Hr. split; [exact Hr|reflexivity].
  - destruct p as [t r sd tm qu f st ex said]. cbn [isShuttingDown queue] in *. subst sd.
    unfold end_cycle, scheduleNextCheck, with_cycle, with_now.
    cbn [queue isRunning isShuttingDown timer fresh settles exit_code notes now].
    split; [split; [reflexivity|exact Hq]|discriminate].
  - destruct p as [t r sd tm qu f st ex said]. cbn [isShuttingDown queue] in *. subst sd.
    unfold abort_cycle, process_exit, say, with_cycle, with_now.
    cbn [queue isRunning isShuttingDown timer fresh settles exit_code notes now].
    split; [split; [reflexivity|exact Hq]|discriminate].
Qed.

Lemma gracefulShutdown_winds_down : forall sig p,
  steady p ->
  winding_down (gracefulShutdown sig p) /\
  isRunning (gracefulShutdown sig p) = isRunning p /\
  settles (gracefulShutdown sig p) = settles p.
Proof.
  intros sig p Hst. pose proof (steady_holds_timer p Hst) as Hheld.
  destruct Hst as [Hex [Hsd _]].
  destruct p as [t r sd tm q f st ex said]. cbn in Hex, Hsd, Hheld. subst sd ex.
  pose proof (clear_held_timer tm q Hheld) as Hclear.
  unfold gracefulShutdown, winding_down. cbn.
  destruct tm as [h|]; cbn; rewrite Hclear; destruct r; cbn; rewrite ?Hclear;
    (split; [split; [reflexivity|]|split; reflexivity]);
    intros e Hin; repeat (destruct Hin as [<-|Hin]; [discriminate|]); destruct Hin.
Qed.

(** X17. Nothing is started once shutdown has begun.  After a first
    signal, whatever the timers do next, no check is ever scheduled
    again, and a cycle that is seen running is the one the signal found
    running: [checkAndUpdate] is not called any more. *)
Theorem X17_no_check_after_shutdown : forall sig p q,
  steady p ->
  loop_steps cycle_length cycle_throws (gracefulShutdown sig p) q ->
  isShuttingDown q = true /\
  (forall e, In e (queue q) -> action e <> NextCheck) /\
  (isRunning q = true -> isRunning p = true /\ settles q = settles p).
Proof.
  intros sig p q Hst Hsteps.
  destruct (gracefulShutdown_winds_down sig p Hst) as [Hw [Hr Hs]].
  assert (Hinv : winding_down q /\
                 (isRunning q = true ->
                  isRunning (gracefulShutdown sig p) = true /\
                  settles q = settles (gracefulShutdown sig p))).
  { induction Hsteps as [p0|p0 q r _ IH Hstep].
    - split; [exact Hw|]. intros H. split; [exact H|reflexivity].
    - destruct (IH Hw Hr Hs) as [Hwq Hrq].
      destruct (winding_down_step q r Hwq Hstep) as [Hwr Hrr].
      split; [exact Hwr|]. intros H. destruct (Hrr H) as [H1 H2].
      destruct (Hrq H1) as [H3 H4]. split; [exact H3|congruence]. }
  destruct Hinv as [[Hsd Hq] Hrun].
  split; [exact Hsd|]. split; [exact Hq|].
  intros H. destruct (Hrun H) as [H1 H2]. split; congruence.
Qed.

End PeriodicCheck.

(** The first tick after start-up, with cycles of five seconds that do
    not throw. *)
Lemma X16_checks_are_paced_witness :
  Lifecycle.isRunning
    (Lifecycle.fire five_second_cycles (Lifecycle.mkTimer 0 60000 None Lifecycle.NextCheck)
       (Lifecycle.scheduleNextCheck fresh_process)) = true /\
  Lifecycle.queue
    (Lifecycle.fire five_second_cycles (Lifecycle.mkTimer 0 60000 None Lifecycle.NextCheck)
       (Lifecycle.scheduleNextCheck fresh_process)) = [].
Proof.
  destruct (X16_checks_are_paced_by_cycle_end five_second_cycles no_cycle_throws
              fresh_process
              (Lifecycle.fire five_second_cycles
                 (Lifecycle.mkTimer 0 60000 None Lifecycle.NextCheck)
                 (Lifecycle.scheduleNextCheck fresh_process)))
    as [[[_ [_ [_ [H|[H _]]]]]|[H _]] _].
  - reflexivity.
  - reflexivity.
  - reflexivity.
  - reflexivity.
  - intros [].
  - eapply Lifecycle.loop_steps_more; [apply Lifecycle.loop_steps_refl|].
    apply Lifecycle.step_timer.
    + reflexivity.
    + left. reflexivity.
    + split.
      * intros e [<-|[]]. cbn. lia.
      * intros c Hc. discriminate Hc.
  - exact H.
  - discriminate H.
  - discriminate H.
Defined.

(** A signal that arrives while a cycle runs, and the first poll after
    it. *)
Lemma X17_no_check_after_shutdown_witness :
  Lifecycle.isShuttingDown
    (Lifecycle.fire five_second_cycles first_poll
       (Lifecycle.gracefulShutdown Lifecycle.SIGTERM mid_cycle_process)) = true.
Proof.
  refine (proj1 (X17_no_check_after_shutdown five_second_cycles no_cycle_throws Lifecycle.SIGTERM
                   mid_cycle_process _ _ _)).
  - repeat split. left. reflexivity.
  - eapply Lifecycle.loop_steps_more; [apply Lifecycle.loop_steps_refl|].
    apply Lifecycle.step_timer.
    + reflexivity.
    + left. reflexivity.
    + split.
      * intros e He. vm_compute in He.
        destruct He as [<-|[<-|[]]]; vm_compute; discriminate.
      * intros c _ Hc. vm_compute in Hc. inversion Hc. vm_compute. discriminate.
Defined.

(* ===================================================================== *)
(** * Further properties: signals after the first *)
(* ===================================================================== *)

Section LaterSignals.
Import Lifecycle.

Variable cycle_length : Z -> option Z.
Variable cycle_throws : Z -> bool.

Lemma scheduleNextCheck_keeps_flag : forall p,
  isShuttingDown (scheduleNextCheck p) = isShuttingDown p.
Proof.
  intros [t r sd tm q f st ex said]. unfold scheduleNextCheck. cbn.
  destruct sd; reflexivity.
Qed.

Lemma loop_step_keeps_flag : forall p q,
  loop_step cycle_length cycle_throws p q -> isShuttingDown q = isShuttingDown p.
Proof.
  intros p q Hstep. destruct Hstep as [p e _ _ _|p c _ _ _ _ _|p c _ _ _ _ _].
  - unfold fire, run_callback. destruct (action e).
    + unfold begin_cycle.
      destruct (isRunning (with_queue (rearm e (queue p)) (with_now (due e) p)));
        [rewrite scheduleNextCheck_keeps_flag|]; destruct p; reflexivity.
    + destruct (negb (isRunning (with_queue (rearm e (queue p)) (with_now (due e) p))));
        destruct p; reflexivity.
    + destruct p; reflexivity.
  - unfold end_cycle. rewrite scheduleNextCheck_keeps_flag. destruct p; reflexivity.
  - destruct p; reflexivity.
Qed.

Lemma gracefulShutdown_sets_flag : forall sig p,
  isShuttingDown (gracefulShutdown sig p) = true.
Proof.
  intros sig [t r sd tm q f st ex said]. unfold gracefulShutdown. cbn.
  destruct sd; [reflexivity|]. destruct tm as [h|]; cbn; destruct r; reflexivity.
Qed.

(** X19. Only the first signal counts.  Once [gracefulShutdown] has run,
    a later call of it, for either signal and at any later turn of the
    event loop, leaves the process exactly as it is: it logs nothing,
    arms no second poll or deadline, and does not exit. *)
Theorem X19_later_signals_are_ignored : forall sig sig' p q,
  loop_steps cycle_length cycle_throws (gracefulShutdown sig p) q ->
  gracefulShutdown sig' q = q.
Proof.
  intros sig sig' p q Hsteps.
  assert (Hflag : isShuttingDown q = true).
  { remember (gracefulShutdown sig p) as p1 eqn:Hp1.
    induction Hsteps as [p0|p0 q r _ IH Hstep].
    - subst p0. apply gracefulShutdown_sets_flag.
    - rewrite (loop_step_keeps_flag q r Hstep). exact (IH Hp1). }
  unfold gracefulShutdown. rewrite Hflag. reflexivity.
Qed.

End LaterSignals.

(** A second signal, sent after the first poll that follows the first
    one. *)
Lemma X19_later_signals_witness :
  Lifecycle.gracefulShutdown Lifecycle.SIGINT
    (Lifecycle.fire five_second_cycles first_poll
       (Lifecycle.gracefulShutdown Lifecycle.SIGTERM mid_cycle_process))
  = Lifecycle.fire five_second_cycles first_poll
      (Lifecycle.gracefulShutdown Lifecycle.SIGTERM mid_cycle_process).
Proof.
  apply (X19_later_signals_are_ignored five_second_cycles no_cycle_throws Lifecycle.SIGTERM
           Lifecycle.SIGINT mid_cycle_process).
  eapply Lifecycle.loop_steps_more; [apply Lifecycle.loop_steps_refl|].
  apply Lifecycle.step_timer.
  - reflexivity.
  - left. reflexivity.
  - split.
    + intros e He. vm_compute in He.
      destruct He as [<-|[<-|[]]]; vm_compute; discriminate.
    + intros c _ Hc. vm_compute in Hc. inversion Hc. vm_compute. discriminate.
Defined.
